(** * Signaling relay (server.js): membership store and session protocol

    A shallow embedding of [src/server.js]: the two module-level maps
    [rooms] and [roomAdmins], the five store functions that work on them,
    and the socket.io event handlers registered for every connection.

    - JavaScript values that reach the handlers are modelled by [jsval];
      numbers are integers below 10^21 in magnitude (timestamps, ids),
      which print as plain decimals; an object is known by its reference
      and by what converting it to a string gives, the only things the
      server uses of it.
    - A JavaScript [Map] is an association list in insertion order with
      unique keys, a [Set] a duplicate-free list in insertion order.
    - A handler is a computation in a small state-and-exception monad over
      the [world] (store plus the [socket.data] of every connection); what
      it asks the transport to do is collected as a list of [action]s.
    - [Date.now()] is read once per event; its value is the [now] argument
      of the handlers. *)

From Stdlib Require Import List String ZArith Bool Lia Permutation Sorted.
From Stdlib Require Import DecimalString.
Import ListNotations.

Local Open Scope string_scope.
Local Open Scope Z_scope.

(** ** JavaScript values *)

(** [JRef r str] is an object or array: [r] is its reference, [str] what
    converting it to a string gives ("[object Object]" for a plain object,
    the joined elements for an array), or [None] when the conversion throws
    because neither [toString] nor [valueOf] of the object yields a
    primitive, as for the parsed JSON {"toString": null}. *)
Inductive jsval : Type :=
| JUndefined
| JNull
| JBool (b : bool)
| JNum (n : Z)
| JStr (s : string)
| JRef (r : nat) (str : option string).

Definition option_string_eqb (a b : option string) : bool :=
  match a, b with
  | Some x, Some y => String.eqb x y
  | None, None => true
  | _, _ => false
  end.

(** [SameValueZero], the key comparison of [Map] and [Set].  On the values
    modelled here it is equality; two objects are the same key only when
    they are the same reference (and one object has one string form). *)
Definition same_value_zero (a b : jsval) : bool :=
  match a, b with
  | JUndefined, JUndefined => true
  | JNull, JNull => true
  | JBool x, JBool y => Bool.eqb x y
  | JNum x, JNum y => Z.eqb x y
  | JStr x, JStr y => String.eqb x y
  | JRef x sx, JRef y sy => Nat.eqb x y && option_string_eqb sx sy
  | _, _ => false
  end.

(** [ToString], what a template literal applies to the value it embeds:
    [None] is the [TypeError] of an object that cannot be converted. *)
Definition to_string (v : jsval) : option string :=
  match v with
  | JUndefined => Some "undefined"
  | JNull => Some "null"
  | JBool true => Some "true"
  | JBool false => Some "false"
  | JNum n => Some (NilZero.string_of_int (Z.to_int n))
  | JStr s => Some s
  | JRef _ str => str
  end.

(** [ToBoolean]: what [!v], [!!v], [v || w] and [if (v)] look at. *)
Definition truthy (v : jsval) : bool :=
  match v with
  | JUndefined | JNull => false
  | JBool b => b
  | JNum n => negb (n =? 0)
  | JStr s => negb (String.eqb s EmptyString)
  | JRef _ _ => true
  end.

(** [a || b] *)
Definition js_or (a b : jsval) : jsval := if truthy a then a else b.

(** The argument a client sends with an event: either a value without the
    properties the handlers look for (nothing at all is [PVal JUndefined]),
    or an object with named properties. *)
Inductive payload : Type :=
| PVal (v : jsval)
| PObj (fields : list (string * jsval)).

Inductive jserror : Type := TypeError.

Fixpoint prop (name : string) (fields : list (string * jsval)) : jsval :=
  match fields with
  | [] => JUndefined
  | (k, v) :: rest => if String.eqb name k then v else prop name rest
  end.

(** Destructuring a parameter, [({ roomId, userId }) => ...]: [undefined]
    and [null] cannot be destructured and raise a [TypeError]; every other
    value is read property by property, an absent one being [undefined]. *)
Definition destructure (arg : payload) : jserror + list (string * jsval) :=
  match arg with
  | PVal JUndefined | PVal JNull => inl TypeError
  | PVal _ => inr []
  | PObj fields => inr fields
  end.

(** ** [Map] and [Set] in insertion order *)

Section JsMap.
Context {K V : Type}.
Variable keq : K -> K -> bool.

Fixpoint map_get (k : K) (m : list (K * V)) : option V :=
  match m with
  | [] => None
  | (k', v) :: rest => if keq k k' then Some v else map_get k rest
  end.

Definition map_has (k : K) (m : list (K * V)) : bool :=
  match map_get k m with Some _ => true | None => false end.

(** [m.set(k, v)]: an existing key keeps its place, a new one goes last. *)
Fixpoint map_set (k : K) (v : V) (m : list (K * V)) : list (K * V) :=
  match m with
  | [] => [(k, v)]
  | (k', v') :: rest =>
      if keq k k' then (k', v) :: rest else (k', v') :: map_set k v rest
  end.

(** [m.delete(k)]: keys are unique, so dropping every entry under [k] drops
    the one entry there is. *)
Definition map_delete (k : K) (m : list (K * V)) : list (K * V) :=
  filter (fun kv => negb (keq k (fst kv))) m.

Definition set_has (k : K) (s : list K) : bool := existsb (keq k) s.

Definition set_add (k : K) (s : list K) : list K :=
  if set_has k s then s else s ++ [k].

Definition set_delete (k : K) (s : list K) : list K :=
  filter (fun x => negb (keq k x)) s.
End JsMap.

(** ** The membership store *)

(** participant: { userId, displayName, streamAllowed, lastSeen }.  A
    property that was never written is [None].  [streamAllowed] is only
    ever written as [!!allow], a boolean; [lastSeen] is written by every
    [upsertParticipant]. *)
Record participant : Type := mkParticipant {
  userId : option jsval;
  displayName : option jsval;
  streamAllowed : option bool;
  lastSeen : Z
}.

(** The object literals passed as [patch]. *)
Record patch : Type := mkPatch {
  p_userId : option jsval;
  p_displayName : option jsval;
  p_streamAllowed : option bool
}.

Definition room := list (string * participant).

Record store : Type := mkStore {
  rooms : list (jsval * room);
  roomAdmins : list (jsval * list string)
}.

Definition empty_store : store := mkStore [] [].

Definition ensureRoom (roomId : jsval) (s : store) : store :=
  mkStore
    (if map_has same_value_zero roomId (rooms s) then rooms s
     else map_set same_value_zero roomId [] (rooms s))
    (if map_has same_value_zero roomId (roomAdmins s) then roomAdmins s
     else map_set same_value_zero roomId [] (roomAdmins s)).

Definition or_else {A} (o fallback : option A) : option A :=
  match o with Some _ => o | None => fallback end.

(** [{ ...prev, ...patch, lastSeen: Date.now() }] with [prev] the stored
    record, or [{}] when there is none. *)
Definition spread (prev : option participant) (pt : patch) (now : Z)
  : participant :=
  mkParticipant
    (or_else (p_userId pt) (match prev with Some p => userId p | None => None end))
    (or_else (p_displayName pt)
             (match prev with Some p => displayName p | None => None end))
    (or_else (p_streamAllowed pt)
             (match prev with Some p => streamAllowed p | None => None end))
    now.

(** A store function either returns, with the store it leaves behind, or
    throws because it called a method on [undefined]. *)
Definition upsertParticipant (now : Z) (roomId : jsval) (socketId : string)
    (pt : patch) (s : store) : jserror + store :=
  let s1 := ensureRoom roomId s in
  match map_get same_value_zero roomId (rooms s1) with
  | None => inl TypeError
  | Some rm =>
      let prev := map_get String.eqb socketId rm in
      inr (mkStore
             (map_set same_value_zero roomId
                (map_set String.eqb socketId (spread prev pt now) rm)
                (rooms s1))
             (roomAdmins s1))
  end.

Definition removeParticipant (roomId : jsval) (socketId : string) (s : store)
  : store :=
  match map_get same_value_zero roomId (rooms s) with
  | Some rm =>
      mkStore (map_set same_value_zero roomId
                 (map_delete String.eqb socketId rm) (rooms s))
              (roomAdmins s)
  | None => s
  end.

Definition listAdmins (roomId : jsval) (s : store)
  : jserror + (list string * store) :=
  let s1 := ensureRoom roomId s in
  match map_get same_value_zero roomId (roomAdmins s1) with
  | None => inl TypeError
  | Some admins => inr (admins, s1)
  end.

(** One element of a [room:update] message. *)
Record entry : Type := mkEntry {
  e_socketId : string;
  e_userId : jsval;
  e_displayName : jsval;
  e_lastSeen : Z
}.

Definition read (o : option jsval) : jsval :=
  match o with Some v => v | None => JUndefined end.

(** The callback of [.map]: [null] for a participant without consent. *)
Definition project (kv : string * participant) : option entry :=
  let (socketId, p) := kv in
  match streamAllowed p with
  | Some true =>
      Some (mkEntry socketId (read (userId p)) (read (displayName p)) (lastSeen p))
  | _ => None
  end.

(** [.map(f).filter(Boolean)] *)
Fixpoint map_filter_Boolean {A B} (f : A -> option B) (l : list A) : list B :=
  match l with
  | [] => []
  | x :: rest =>
      match f x with
      | Some y => y :: map_filter_Boolean f rest
      | None => map_filter_Boolean f rest
      end
  end.

(** [x || 0] on a number. *)
Definition or_zero (n : Z) : Z := if n =? 0 then 0 else n.

(** The comparator [(a, b) => (b.lastSeen || 0) - (a.lastSeen || 0)]. *)
Definition by_lastSeen_desc (a b : entry) : Z :=
  or_zero (e_lastSeen b) - or_zero (e_lastSeen a).

(** [Array.prototype.sort] is stable: elements the comparator does not
    separate keep their order.  With a consistent comparator its result is
    the one a stable insertion sort computes. *)
Section ArraySort.
Context {A : Type}.
Variable cmp : A -> A -> Z.

Fixpoint sort_insert (x : A) (sorted : list A) : list A :=
  match sorted with
  | [] => [x]
  | y :: rest =>
      if cmp x y <=? 0 then x :: y :: rest else y :: sort_insert x rest
  end.

Fixpoint array_sort (l : list A) : list A :=
  match l with
  | [] => []
  | x :: rest => sort_insert x (array_sort rest)
  end.
End ArraySort.

(** The derived view of one room's participant map. *)
Definition stream_enabled (rm : room) : list entry :=
  array_sort by_lastSeen_desc (map_filter_Boolean project rm).

Definition listStreamEnabledParticipants (roomId : jsval) (s : store)
  : jserror + (list entry * store) :=
  let s1 := ensureRoom roomId s in
  match map_get same_value_zero roomId (rooms s1) with
  | None => inl TypeError
  | Some rm => inr (stream_enabled rm, s1)
  end.

(** ** Connections, messages and the handler monad *)

Inductive role : Type := Participant | Admin.

(** [socket.data]: { role, roomId, userId }, all [undefined] at first. *)
Record sockdata : Type := mkData {
  d_role : option role;
  d_roomId : jsval;
  d_userId : jsval
}.

Definition fresh_data : sockdata := mkData None JUndefined JUndefined.

Record world : Type := mkWorld {
  w_store : store;
  w_data : list (string * sockdata)
}.

Definition initial_world : world := mkWorld empty_store [].

Definition data_of (socket : string) (w : world) : sockdata :=
  match map_get String.eqb socket (w_data w) with
  | Some d => d
  | None => fresh_data
  end.

(** Whom an emit addresses: [socket.emit], [io.to(name)] with the group
    name a template literal made, or [io.to(to)] with the value the relay
    was given. *)
Inductive target : Type :=
| ThisSocket (id : string)
| Group (name : string)
| Direct (to : jsval).

Inductive message : Type :=
| AdminList (roomId : jsval) (admins : list string)
| RoomUpdate (l : list entry)
| StreamAllowed (socketId : string) (user : jsval) (allow : bool)
| AdminSocket (adminSocketId : string)
| Signal (from : string) (field : string) (value : jsval).

Inductive action : Type :=
| Emit (t : target) (ev : string) (m : message)
| SocketJoin (id : string) (group : string).

(** A handler either returns or throws; either way it leaves a world, with
    what it wrote before it stopped, and the actions it issued until then.
    Nothing catches an exception that leaves a handler: the process ends
    with it, and no further event is handled. *)
Inductive result (A : Type) : Type :=
| Throw (e : jserror) (w : world) (out : list action)
| Ok (a : A) (w : world) (out : list action).
Arguments Throw {A} e w out.
Arguments Ok {A} a w out.

Definition M (A : Type) : Type := world -> result A.

Definition ret {A} (a : A) : M A := fun w => Ok a w [].

Definition bind {A B} (m : M A) (k : A -> M B) : M B :=
  fun w =>
    match m w with
    | Throw e w1 o1 => Throw e w1 o1
    | Ok a w1 o1 =>
        match k a w1 with
        | Throw e w2 o2 => Throw e w2 (o1 ++ o2)
        | Ok b w2 o2 => Ok b w2 (o1 ++ o2)
        end
    end.

(** The world a computation leaves and the actions it issued, whether it
    returned or threw. *)
Definition after {A} (r : result A) : world :=
  match r with Throw _ w _ => w | Ok _ w _ => w end.

Definition sent {A} (r : result A) : list action :=
  match r with Throw _ _ o => o | Ok _ _ o => o end.

Notation "x <- m ;; k" := (bind m (fun x => k))
  (at level 61, m at next level, right associativity).
Notation "m ;; k" := (bind m (fun _ => k))
  (at level 61, right associativity).

Definition throw {A} (e : jserror) : M A := fun w => Throw e w [].

(** The template literal [`prefix${v}`]. *)
Definition template (prefix : string) (v : jsval) : M string :=
  match to_string v with
  | Some s => ret (prefix ++ s)
  | None => throw TypeError
  end.

Definition unpack (arg : payload) : M (list (string * jsval)) :=
  match destructure arg with
  | inl e => throw e
  | inr fields => ret fields
  end.

Definition get_data (socket : string) : M sockdata :=
  fun w => Ok (data_of socket w) w [].

Definition set_data (socket : string) (f : sockdata -> sockdata) : M unit :=
  fun w =>
    Ok tt (mkWorld (w_store w)
             (map_set String.eqb socket (f (data_of socket w)) (w_data w))) [].

Definition set_role (socket : string) (r : role) : M unit :=
  set_data socket (fun d => mkData (Some r) (d_roomId d) (d_userId d)).

Definition set_roomId (socket : string) (roomId : jsval) : M unit :=
  set_data socket (fun d => mkData (d_role d) roomId (d_userId d)).

Definition set_userId (socket : string) (user : jsval) : M unit :=
  set_data socket (fun d => mkData (d_role d) (d_roomId d) user).

(** Running a store function that returns a value. *)
Definition query {A} (f : store -> jserror + (A * store)) : M A :=
  fun w =>
    match f (w_store w) with
    | inl e => Throw e w []
    | inr (a, s) => Ok a (mkWorld s (w_data w)) []
    end.

(** Running a store function that may throw and returns nothing. *)
Definition update (f : store -> jserror + store) : M unit :=
  fun w =>
    match f (w_store w) with
    | inl e => Throw e w []
    | inr s => Ok tt (mkWorld s (w_data w)) []
    end.

Definition emit (t : target) (ev : string) (m : message) : M unit :=
  fun w => Ok tt w [Emit t ev m].

Definition socket_join (socket group : string) : M unit :=
  fun w => Ok tt w [SocketJoin socket group].

(** [roomAdmins.get(roomId).add(socketId)] *)
Definition roomAdmins_add (roomId : jsval) (socketId : string) (s : store)
  : jserror + store :=
  match map_get same_value_zero roomId (roomAdmins s) with
  | None => inl TypeError
  | Some admins =>
      inr (mkStore (rooms s)
             (map_set same_value_zero roomId
                (set_add String.eqb socketId admins) (roomAdmins s)))
  end.

(** [roomAdmins.get(roomId).delete(socketId)] *)
Definition roomAdmins_delete (roomId : jsval) (socketId : string) (s : store)
  : jserror + store :=
  match map_get same_value_zero roomId (roomAdmins s) with
  | None => inl TypeError
  | Some admins =>
      inr (mkStore (rooms s)
             (map_set same_value_zero roomId
                (set_delete String.eqb socketId admins) (roomAdmins s)))
  end.

(** ** The handlers *)

(** The group [io.to(`admin:${roomId}`)] is named before the argument of
    [emit] is evaluated. *)
Definition broadcastAdminUpdate (roomId : jsval) : M unit :=
  group <- template "admin:" roomId ;;
  l <- query (listStreamEnabledParticipants roomId) ;;
  emit (Group group) "room:update" (RoomUpdate l).

Definition on_join (socket : string) (now : Z) (arg : payload) : M unit :=
  o <- unpack arg ;;
  let roomId := prop "roomId" o in
  let user := prop "userId" o in
  let name := prop "displayName" o in
  if negb (truthy roomId) || negb (truthy user) then ret tt
  else
    set_role socket Participant ;;
    set_roomId socket roomId ;;
    set_userId socket user ;;
    update (fun s => inr (ensureRoom roomId s)) ;;
    group <- template "room:" roomId ;;
    socket_join socket group ;;
    update (upsertParticipant now roomId socket
              (mkPatch (Some user) (Some (js_or name user)) None)) ;;
    admins <- query (listAdmins roomId) ;;
    emit (ThisSocket socket) "admin:list" (AdminList roomId admins) ;;
    broadcastAdminUpdate roomId.

Definition on_ping (socket : string) (now : Z) : M unit :=
  d <- get_data socket ;;
  let roomId := d_roomId d in
  if negb (truthy roomId) then ret tt
  else
    update (upsertParticipant now roomId socket (mkPatch None None None)) ;;
    broadcastAdminUpdate roomId.

Definition on_stream_consent (socket : string) (now : Z) (arg : payload)
  : M unit :=
  o <- unpack arg ;;
  let roomId := prop "roomId" o in
  let user := prop "userId" o in
  let allow := prop "allow" o in
  if negb (truthy roomId) || negb (truthy user) then ret tt
  else
    update (upsertParticipant now roomId socket
              (mkPatch (Some user) None (Some (truthy allow)))) ;;
    admins <- query (listAdmins roomId) ;;
    emit (ThisSocket socket) "admin:list" (AdminList roomId admins) ;;
    broadcastAdminUpdate roomId ;;
    group <- template "admin:" roomId ;;
    emit (Group group) "participant:streamAllowed"
      (StreamAllowed socket user (truthy allow)).

Definition on_admin_subscribe (socket : string) (arg : payload) : M unit :=
  o <- unpack arg ;;
  let roomId := prop "roomId" o in
  if negb (truthy roomId) then ret tt
  else
    set_role socket Admin ;;
    set_roomId socket roomId ;;
    update (fun s => inr (ensureRoom roomId s)) ;;
    update (roomAdmins_add roomId socket) ;;
    group <- template "admin:" roomId ;;
    socket_join socket group ;;
    l <- query (listStreamEnabledParticipants roomId) ;;
    emit (ThisSocket socket) "room:update" (RoomUpdate l) ;;
    group <- template "room:" roomId ;;
    emit (Group group) "admin:online" (AdminSocket socket).

(** The three relay handlers differ in the event name and in the property
    they forward ([sdp] or [candidate]). *)
Definition relay (ev field : string) (socket : string) (arg : payload)
  : M unit :=
  o <- unpack arg ;;
  emit (Direct (prop "to" o)) ev (Signal socket field (prop field o)).

Definition on_webrtc_offer := relay "webrtc:offer" "sdp".
Definition on_webrtc_answer := relay "webrtc:answer" "sdp".
Definition on_webrtc_ice := relay "webrtc:ice" "candidate".

Definition is_role (r : role) (o : option role) : bool :=
  match o, r with
  | Some Participant, Participant => true
  | Some Admin, Admin => true
  | _, _ => false
  end.

Definition on_disconnect (socket : string) : M unit :=
  d <- get_data socket ;;
  let roomId := d_roomId d in
  if truthy roomId then
    (if is_role Admin (d_role d) then
       update (fun s => inr (ensureRoom roomId s)) ;;
       update (roomAdmins_delete roomId socket) ;;
       group <- template "room:" roomId ;;
       emit (Group group) "admin:offline" (AdminSocket socket)
     else ret tt) ;;
    (if is_role Participant (d_role d) then
       update (fun s => inr (removeParticipant roomId socket s))
     else ret tt) ;;
    broadcastAdminUpdate roomId
  else ret tt.

(** ** Events *)

Inductive event : Type :=
| EvJoin (arg : payload)
| EvPing
| EvStreamConsent (arg : payload)
| EvAdminSubscribe (arg : payload)
| EvWebrtcOffer (arg : payload)
| EvWebrtcAnswer (arg : payload)
| EvWebrtcIce (arg : payload)
| EvDisconnect.

(** One inbound event: the connection it arrives on, the clock reading
    while it is handled, and the event. *)
Record input : Type := mkInput {
  i_socket : string;
  i_now : Z;
  i_event : event
}.

Definition step (i : input) : M unit :=
  let socket := i_socket i in
  match i_event i with
  | EvJoin arg => on_join socket (i_now i) arg
  | EvPing => on_ping socket (i_now i)
  | EvStreamConsent arg => on_stream_consent socket (i_now i) arg
  | EvAdminSubscribe arg => on_admin_subscribe socket arg
  | EvWebrtcOffer arg => on_webrtc_offer socket arg
  | EvWebrtcAnswer arg => on_webrtc_answer socket arg
  | EvWebrtcIce arg => on_webrtc_ice socket arg
  | EvDisconnect => on_disconnect socket
  end.

(** Events are handled one at a time, each to completion; the first that
    throws is the last. *)
Fixpoint run (inputs : list input) : M unit :=
  match inputs with
  | [] => ret tt
  | i :: rest => step i ;; run rest
  end.

(** ** Reading the store and the trace *)

(** The participant map of a room, empty for a room the store has not seen. *)
Definition participants (roomId : jsval) (s : store) : room :=
  match map_get same_value_zero roomId (rooms s) with
  | Some rm => rm
  | None => []
  end.

(** The admin set of a room, empty for a room the store has not seen. *)
Definition admins (roomId : jsval) (s : store) : list string :=
  match map_get same_value_zero roomId (roomAdmins s) with
  | Some a => a
  | None => []
  end.

(** The room has its participant map and its admin set. *)
Definition known (roomId : jsval) (s : store) : bool :=
  map_has same_value_zero roomId (rooms s)
  && map_has same_value_zero roomId (roomAdmins s).

Definition participant_count (roomId : jsval) (s : store) : nat :=
  List.length (participants roomId s).

Definition record_of (socketId : string) (roomId : jsval) (s : store)
  : option participant :=
  map_get String.eqb socketId (participants roomId s).

(** [a] may stand before [b] in a list that is in descending order of
    [lastSeen]. *)
Definition seen_no_later (a b : entry) : Prop := e_lastSeen b <= e_lastSeen a.

(** The participant's [streamAllowed] is [true]. *)
Definition consents (kv : string * participant) : bool :=
  match streamAllowed (snd kv) with Some true => true | _ => false end.

(** { socketId, userId, displayName, lastSeen } of a map entry. *)
Definition render (kv : string * participant) : entry :=
  mkEntry (fst kv) (read (userId (snd kv))) (read (displayName (snd kv)))
    (lastSeen (snd kv)).

(** ** What an event can do *)

Definition is_disconnect (e : event) : bool :=
  match e with EvDisconnect => true | _ => false end.

(** The event sets [socket.data.roomId]. *)
Definition names_room (e : event) : bool :=
  match e with EvJoin _ | EvAdminSubscribe _ => true | _ => false end.

(** The store operations the handlers of connection [c] are built from:
    every write is under the connection's own id, and only the disconnect
    handler ([closing = true]) deletes. *)
Inductive touches (c : string) : bool -> store -> store -> Prop :=
| touch_none closing s : touches c closing s s
| touch_ensure closing r s : touches c closing s (ensureRoom r s)
| touch_upsert closing now r pt s s' :
    upsertParticipant now r c pt s = inr s' -> touches c closing s s'
| touch_add closing r s s' :
    roomAdmins_add r c s = inr s' -> touches c closing s s'
| touch_delete r s s' :
    roomAdmins_delete r c s = inr s' -> touches c true s s'
| touch_remove r s : touches c true s (removeParticipant r c s)
| touch_then closing s1 s2 s3 :
    touches c closing s1 s2 -> touches c closing s2 s3 -> touches c closing s1 s3.

(** The connection has an entry in the list. *)
Definition listed (socketId : string) (l : list entry) : Prop :=
  In socketId (map e_socketId l).

(** Every connection that recorded a room id recorded one the store knows. *)
Definition rooms_recorded (w : world) : Prop :=
  forall c, truthy (d_roomId (data_of c w)) = true ->
            known (d_roomId (data_of c w)) (w_store w) = true.

(** States the server can be in: it starts with both maps empty and every
    connection's data unset, and handles one event after the other. *)
Inductive reachable : world -> Prop :=
| reach_initial : reachable initial_world
| reach_step i w w' o :
    reachable w -> step i w = Ok tt w' o -> reachable w'.

(** The input is the disconnect of connection [c]. *)
Definition closes (c : string) (i : input) : bool :=
  is_disconnect (i_event i) && String.eqb (i_socket i) c.

(** The room id is a key of one of the two maps. *)
Definition present (roomId : jsval) (s : store) : bool :=
  map_has same_value_zero roomId (rooms s)
  || map_has same_value_zero roomId (roomAdmins s).

(** ** Two readings of the specification that the handlers do not meet *)



(** "A room can come into existence by the admin broadcast after a
    disconnect": some state the server can reach and some disconnect
    handled there leave a room id in the store that was not there before. *)
Definition disconnect_broadcast_creates_room : Prop :=
  exists (w w' : world) (c : string) (t : Z) (o : list action) (r : jsval),
    reachable w
    /\ step (mkInput c t EvDisconnect) w = Ok tt w' o
    /\ present r (w_store w) = false
    /\ present r (w_store w') = true.

(** The event's argument, if it takes one, can be destructured. *)
Definition destructurable (e : event) : bool :=
  match e with
  | EvJoin arg | EvStreamConsent arg | EvAdminSubscribe arg
  | EvWebrtcOffer arg | EvWebrtcAnswer arg | EvWebrtcIce arg =>
      match destructure arg with inr _ => true | inl _ => false end
  | EvPing | EvDisconnect => true
  end.

(** ** Invariants and message shapes used below *)

(** The representation invariant of [Map] and [Set]: no key twice in a
    room's participant map, no id twice in a room's admin set. *)
Definition unique_keys (s : store) : Prop :=
  forall r, NoDup (map fst (participants r s)) /\ NoDup (admins r s).

(** Every record that carries a consent flag carries a non-empty userId. *)
Definition consent_has_user (s : store) : Prop :=
  forall r c p,
    In (c, p) (participants r s) -> streamAllowed p <> None ->
    exists u, userId p = Some u /\ truthy u = true.

(** The ids an action carries about its sender are those of connection [c]:
    the socket that joins a group, the socket a reply goes to, [from] of a
    relayed signal, [socketId] of a consent notice, [adminSocketId]. *)
Definition signed_by (c : string) (a : action) : Prop :=
  match a with
  | SocketJoin id _ => id = c
  | Emit t _ m =>
      match t with ThisSocket id => id = c | _ => True end
      /\ match m with
         | Signal from _ _ => from = c
         | StreamAllowed id _ _ => id = c
         | AdminSocket id => id = c
         | _ => True
         end
  end.

(** ** Room ids and group names *)

(** The room id an event works on: the one in its payload, or for a
    heartbeat and a disconnect the one recorded for the connection. *)
Definition event_room (i : input) (w : world) : jsval :=
  match i_event i with
  | EvJoin arg | EvStreamConsent arg | EvAdminSubscribe arg =>
      match destructure arg with
      | inr o => prop "roomId" o
      | inl _ => JUndefined
      end
  | EvPing | EvDisconnect => d_roomId (data_of (i_socket i) w)
  | EvWebrtcOffer _ | EvWebrtcAnswer _ | EvWebrtcIce _ => JUndefined
  end.

(** The event gets past the guard of its handler. *)
Definition passes_guard (i : input) (w : world) : bool :=
  match i_event i with
  | EvJoin arg | EvStreamConsent arg =>
      match destructure arg with
      | inr o => truthy (prop "roomId" o) && truthy (prop "userId" o)
      | inl _ => false
      end
  | EvAdminSubscribe arg =>
      match destructure arg with
      | inr o => truthy (prop "roomId" o)
      | inl _ => false
      end
  | EvPing | EvDisconnect => truthy (d_roomId (data_of (i_socket i) w))
  | EvWebrtcOffer _ | EvWebrtcAnswer _ | EvWebrtcIce _ => false
  end.

Definition has_string (v : jsval) : bool :=
  match to_string v with Some _ => true | None => false end.

(** The event is handled to the end: its argument can be destructured and,
    if it gets past the guard, its room id can be converted to a string. *)
Definition survives (i : input) (w : world) : bool :=
  destructurable (i_event i)
  && (negb (passes_guard i w) || has_string (event_room i w)).

(** Every event of the sequence is handled to the end, each in the world
    its predecessors leave. *)
Fixpoint all_survive (inputs : list input) (w : world) : bool :=
  match inputs with
  | [] => true
  | i :: rest => survives i w && all_survive rest (after (step i w))
  end.

(** Every room id recorded for a connection can be converted to a string. *)
Definition rooms_named (w : world) : Prop :=
  forall c, truthy (d_roomId (data_of c w)) = true ->
            has_string (d_roomId (data_of c w)) = true.

(** * Facts about the model *)

(** ** Key comparison *)

Lemma same_value_zero_eq (a b : jsval) : same_value_zero a b = true <-> a = b.
Proof.
  destruct a, b; simpl; split; intro H; try discriminate; try reflexivity.
  - apply Bool.eqb_prop in H. now subst.
  - injection H as ->. apply Bool.eqb_reflx.
  - apply Z.eqb_eq in H. now subst.
  - injection H as ->. apply Z.eqb_refl.
  - apply String.eqb_eq in H. now subst.
  - injection H as ->. apply String.eqb_refl.
  - apply andb_true_iff in H. destruct H as [H1 H2].
    apply Nat.eqb_eq in H1. subst.
    destruct str as [x|], str0 as [y|]; simpl in H2; try discriminate;
      [apply String.eqb_eq in H2; now subst | reflexivity].
  - injection H as -> ->. rewrite Nat.eqb_refl. simpl.
    destruct str0; simpl; [apply String.eqb_refl | reflexivity].
Qed.

(** ** Insertion-ordered maps and sets *)

Section JsMapFacts.
Context {K V : Type}.
Variable keq : K -> K -> bool.
Hypothesis keq_eq : forall a b, keq a b = true <-> a = b.

Lemma keq_refl (k : K) : keq k k = true.
Proof. now apply keq_eq. Qed.

Lemma keq_neq (a b : K) : a <> b -> keq a b = false.
Proof.
  intro H. destruct (keq a b) eqn:E; [|reflexivity].
  apply keq_eq in E. contradiction.
Qed.

Lemma map_get_set_same (k : K) (v : V) (m : list (K * V)) :
  map_get keq k (map_set keq k v m) = Some v.
Proof.
  induction m as [|[k' v'] m IH]; simpl.
  - now rewrite keq_refl.
  - destruct (keq k k') eqn:E; simpl; rewrite E; [reflexivity | exact IH].
Qed.

Lemma map_get_set_other (k k' : K) (v : V) (m : list (K * V)) :
  k <> k' -> map_get keq k' (map_set keq k v m) = map_get keq k' m.
Proof.
  intro Hne. induction m as [|[k0 v0] m IH]; simpl.
  - rewrite keq_neq; [reflexivity | congruence].
  - destruct (keq k k0) eqn:E; simpl.
    + apply keq_eq in E. subst k0.
      rewrite keq_neq; [reflexivity | congruence].
    + now rewrite IH.
Qed.

Lemma map_has_set_same (k : K) (v : V) (m : list (K * V)) :
  map_has keq k (map_set keq k v m) = true.
Proof. unfold map_has. now rewrite map_get_set_same. Qed.

Lemma map_has_set_other (k k' : K) (v : V) (m : list (K * V)) :
  k <> k' -> map_has keq k' (map_set keq k v m) = map_has keq k' m.
Proof. intro H. unfold map_has. now rewrite map_get_set_other. Qed.

Lemma map_has_set_mono (k k' : K) (v : V) (m : list (K * V)) :
  map_has keq k' m = true -> map_has keq k' (map_set keq k v m) = true.
Proof.
  intro H. destruct (keq k k') eqn:E.
  - apply keq_eq in E. subst. apply map_has_set_same.
  - rewrite map_has_set_other; [exact H|].
    intro Heq. subst. rewrite keq_refl in E. discriminate.
Qed.

(** Writing under a key the map has does not change its size. *)
Lemma map_set_length_has (k : K) (v : V) (m : list (K * V)) :
  map_has keq k m = true -> List.length (map_set keq k v m) = List.length m.
Proof.
  unfold map_has. induction m as [|[k' v'] m IH]; simpl.
  - discriminate.
  - destruct (keq k k') eqn:E; simpl; [reflexivity|].
    intro H. now rewrite IH.
Qed.

Lemma map_set_length_new (k : K) (v : V) (m : list (K * V)) :
  map_has keq k m = false -> List.length (map_set keq k v m) = S (List.length m).
Proof.
  unfold map_has. induction m as [|[k' v'] m IH]; simpl.
  - reflexivity.
  - destruct (keq k k') eqn:E; simpl; [discriminate|].
    intro H. now rewrite IH.
Qed.

(** The later of two writes under one key is the one that stays. *)
Lemma map_set_set (k : K) (v1 v2 : V) (m : list (K * V)) :
  map_set keq k v2 (map_set keq k v1 m) = map_set keq k v2 m.
Proof.
  induction m as [|[k' v'] m IH]; simpl.
  - now rewrite keq_refl.
  - destruct (keq k k') eqn:E; simpl; rewrite E; [reflexivity|].
    now rewrite IH.
Qed.

Lemma map_get_In (k : K) (v : V) (m : list (K * V)) :
  map_get keq k m = Some v -> In (k, v) m.
Proof.
  induction m as [|[k' v'] m IH]; simpl; [discriminate|].
  destruct (keq k k') eqn:E.
  - apply keq_eq in E. subst. intros [= ->]. now left.
  - intro H. right. now apply IH.
Qed.

Lemma map_get_None_In (k : K) (m : list (K * V)) :
  map_get keq k m = None -> forall v, ~ In (k, v) m.
Proof.
  induction m as [|[k' v'] m IH]; simpl; intros H v; [tauto|].
  destruct (keq k k') eqn:E; [discriminate|].
  intros [[= -> ->] | Hin].
  - rewrite keq_refl in E. discriminate.
  - exact (IH H v Hin).
Qed.

Lemma map_set_In (k k' : K) (v v' : V) (m : list (K * V)) :
  In (k', v') (map_set keq k v m) -> (k' = k /\ v' = v) \/ In (k', v') m.
Proof.
  induction m as [|[k0 v0] m IH]; simpl.
  - intros [[= <- <-] | []]. now left.
  - destruct (keq k k0) eqn:E; simpl.
    + apply keq_eq in E. subst k0.
      intros [[= <- <-] | H]; [now left | now right; right].
    + intros [H | H]; [now right; left|].
      destruct (IH H) as [? | ?]; [now left | now right; right].
Qed.

Lemma map_get_delete_same (k : K) (m : list (K * V)) :
  map_get keq k (map_delete keq k m) = None.
Proof.
  unfold map_delete. induction m as [|[k' v'] m IH]; simpl; [reflexivity|].
  destruct (keq k k') eqn:E; simpl; [exact IH|].
  now rewrite E.
Qed.

Lemma map_get_delete_other (k k' : K) (m : list (K * V)) :
  k <> k' -> map_get keq k' (map_delete keq k m) = map_get keq k' m.
Proof.
  intro Hne. unfold map_delete.
  induction m as [|[k0 v0] m IH]; simpl; [reflexivity|].
  destruct (keq k k0) eqn:E; simpl.
  - apply keq_eq in E. subst k0.
    rewrite (keq_neq k' k); [exact IH | congruence].
  - now rewrite IH.
Qed.

(** The keys stay unique. *)
Lemma map_set_keys (k k' : K) (v : V) (m : list (K * V)) :
  In k' (map fst (map_set keq k v m)) <-> k' = k \/ In k' (map fst m).
Proof.
  induction m as [|[k0 v0] m IH]; simpl.
  - intuition congruence.
  - destruct (keq k k0) eqn:E; simpl.
    + apply keq_eq in E. subst k0. intuition congruence.
    + rewrite IH. intuition congruence.
Qed.

Lemma map_set_NoDup (k : K) (v : V) (m : list (K * V)) :
  NoDup (map fst m) -> NoDup (map fst (map_set keq k v m)).
Proof.
  induction m as [|[k0 v0] m IH]; simpl; intro H.
  - constructor; [tauto | constructor].
  - inversion H as [|? ? Hnotin Hrest]; subst.
    destruct (keq k k0) eqn:E; simpl.
    + now constructor.
    + constructor; [|now apply IH].
      rewrite map_set_keys. intros [-> | Hin]; [|contradiction].
      rewrite keq_refl in E. discriminate.
Qed.

Lemma map_delete_NoDup (k : K) (m : list (K * V)) :
  NoDup (map fst m) -> NoDup (map fst (map_delete keq k m)).
Proof.
  unfold map_delete. induction m as [|[k0 v0] m IH]; simpl; intro H.
  - constructor.
  - inversion H as [|? ? Hnotin Hrest]; subst.
    destruct (keq k k0); simpl; [now apply IH|].
    constructor; [|now apply IH].
    intro Hin. apply Hnotin. apply in_map_iff in Hin.
    destruct Hin as [[k1 v1] [Heq Hin]]. apply filter_In in Hin.
    apply in_map_iff. exists (k1, v1). tauto.
Qed.

Lemma set_add_In (k x : K) (s : list K) :
  In x (set_add keq k s) <-> x = k \/ In x s.
Proof.
  unfold set_add, set_has. destruct (existsb (keq k) s) eqn:E.
  - split; [now right|]. intros [-> | H]; [|exact H].
    apply existsb_exists in E. destruct E as [y [Hy Hk]].
    apply keq_eq in Hk. now subst.
  - rewrite in_app_iff. simpl. intuition congruence.
Qed.

Lemma set_delete_In (k x : K) (s : list K) :
  In x (set_delete keq k s) <-> x <> k /\ In x s.
Proof.
  unfold set_delete. rewrite filter_In. split.
  - intros [H1 H2]. split; [|exact H1].
    intros ->. now rewrite keq_refl in H2.
  - intros [H1 H2]. split; [exact H2|].
    rewrite keq_neq; [reflexivity | congruence].
Qed.
End JsMapFacts.

(** ** The store functions *)

Lemma jsval_eq_dec (a b : jsval) : {a = b} + {a <> b}.
Proof.
  destruct (same_value_zero a b) eqn:E.
  - left. now apply same_value_zero_eq.
  - right. intro H. apply same_value_zero_eq in H. congruence.
Qed.

Lemma store_eta (s : store) : mkStore (rooms s) (roomAdmins s) = s.
Proof. now destruct s. Qed.

Section EnsureDefault.
Context {V : Type}.
Variable d : V.

Let ensure (r : jsval) (m : list (jsval * V)) :=
  if map_has same_value_zero r m then m else map_set same_value_zero r d m.

Lemma get_ensure_same (r : jsval) (m : list (jsval * V)) :
  map_get same_value_zero r (ensure r m)
  = Some (match map_get same_value_zero r m with Some x => x | None => d end).
Proof.
  unfold ensure, map_has.
  destruct (map_get same_value_zero r m) eqn:E; [exact E|].
  apply (map_get_set_same _ same_value_zero_eq).
Qed.

Lemma get_ensure_other (r r' : jsval) (m : list (jsval * V)) :
  r <> r' ->
  map_get same_value_zero r' (ensure r m) = map_get same_value_zero r' m.
Proof.
  intro Hne. unfold ensure, map_has.
  destruct (map_get same_value_zero r m); [reflexivity|].
  now apply (map_get_set_other _ same_value_zero_eq).
Qed.

(** Creating an absent key with the default value does not change what a
    lookup with that default sees. *)
Lemma get_ensure_default (r r' : jsval) (m : list (jsval * V)) :
  match map_get same_value_zero r' (ensure r m) with
  | Some x => x
  | None => d
  end
  = match map_get same_value_zero r' m with Some x => x | None => d end.
Proof.
  destruct (jsval_eq_dec r r') as [<- | Hne].
  - now rewrite get_ensure_same.
  - now rewrite get_ensure_other.
Qed.

Lemma has_ensure_same (r : jsval) (m : list (jsval * V)) :
  map_has same_value_zero r (ensure r m) = true.
Proof. unfold map_has. now rewrite get_ensure_same. Qed.

Lemma has_ensure_mono (r r' : jsval) (m : list (jsval * V)) :
  map_has same_value_zero r' m = true ->
  map_has same_value_zero r' (ensure r m) = true.
Proof.
  intro H. destruct (jsval_eq_dec r r') as [<- | Hne].
  - apply has_ensure_same.
  - unfold map_has. now rewrite get_ensure_other.
Qed.
End EnsureDefault.

Lemma participants_ensureRoom (r r' : jsval) (s : store) :
  participants r' (ensureRoom r s) = participants r' s.
Proof. unfold participants, ensureRoom. simpl. apply get_ensure_default. Qed.

Lemma admins_ensureRoom (r r' : jsval) (s : store) :
  admins r' (ensureRoom r s) = admins r' s.
Proof. unfold admins, ensureRoom. simpl. apply get_ensure_default. Qed.

Lemma rooms_get_ensureRoom (r : jsval) (s : store) :
  map_get same_value_zero r (rooms (ensureRoom r s)) = Some (participants r s).
Proof. unfold participants, ensureRoom. simpl. apply get_ensure_same. Qed.

Lemma roomAdmins_get_ensureRoom (r : jsval) (s : store) :
  map_get same_value_zero r (roomAdmins (ensureRoom r s)) = Some (admins r s).
Proof. unfold admins, ensureRoom. simpl. apply get_ensure_same. Qed.

Lemma known_ensureRoom (r : jsval) (s : store) : known r (ensureRoom r s) = true.
Proof.
  unfold known, ensureRoom. simpl.
  now rewrite !has_ensure_same.
Qed.

Lemma known_ensureRoom_mono (r r' : jsval) (s : store) :
  known r' s = true -> known r' (ensureRoom r s) = true.
Proof.
  unfold known, ensureRoom. simpl. intro H.
  apply andb_true_iff in H. destruct H as [H1 H2].
  now rewrite !has_ensure_mono.
Qed.

(** [ensureRoom] is idempotent: on a room the store knows it does nothing. *)
Lemma ensureRoom_known (r : jsval) (s : store) :
  known r s = true -> ensureRoom r s = s.
Proof.
  unfold known, ensureRoom. intro H.
  apply andb_true_iff in H. destruct H as [-> ->]. apply store_eta.
Qed.

Lemma ensureRoom_idempotent (r : jsval) (s : store) :
  ensureRoom r (ensureRoom r s) = ensureRoom r s.
Proof. apply ensureRoom_known, known_ensureRoom. Qed.

Lemma participants_set_same (r : jsval) (rm : room) (m : list (jsval * room))
    (a : list (jsval * list string)) :
  participants r (mkStore (map_set same_value_zero r rm m) a) = rm.
Proof.
  unfold participants. simpl.
  now rewrite (map_get_set_same _ same_value_zero_eq).
Qed.

Lemma participants_set_other (r r' : jsval) (rm : room)
    (m : list (jsval * room)) (a : list (jsval * list string)) :
  r <> r' ->
  participants r' (mkStore (map_set same_value_zero r rm m) a)
  = participants r' (mkStore m a).
Proof.
  intro H. unfold participants. simpl.
  now rewrite (map_get_set_other _ same_value_zero_eq).
Qed.

Lemma admins_set_same (r : jsval) (x : list string) (m : list (jsval * room))
    (a : list (jsval * list string)) :
  admins r (mkStore m (map_set same_value_zero r x a)) = x.
Proof.
  unfold admins. simpl.
  now rewrite (map_get_set_same _ same_value_zero_eq).
Qed.

Lemma admins_set_other (r r' : jsval) (x : list string)
    (m : list (jsval * room)) (a : list (jsval * list string)) :
  r <> r' ->
  admins r' (mkStore m (map_set same_value_zero r x a)) = admins r' (mkStore m a).
Proof.
  intro H. unfold admins. simpl.
  now rewrite (map_get_set_other _ same_value_zero_eq).
Qed.

(** *** upsertParticipant *)

(** The room is there once [ensureRoom] has run, so [upsertParticipant]
    always returns; this is the store it leaves. *)
Lemma upsertParticipant_inr (now : Z) (r : jsval) (c : string) (pt : patch)
    (s : store) :
  upsertParticipant now r c pt s
  = inr (mkStore
           (map_set same_value_zero r
              (map_set String.eqb c (spread (record_of c r s) pt now)
                 (participants r s))
              (rooms (ensureRoom r s)))
           (roomAdmins (ensureRoom r s))).
Proof.
  unfold upsertParticipant. cbv zeta.
  now rewrite rooms_get_ensureRoom.
Qed.

Section Upsert.
Variables (now : Z) (r : jsval) (c : string) (pt : patch) (s s' : store).
Hypothesis Hup : upsertParticipant now r c pt s = inr s'.

Lemma upsert_participants_same :
  participants r s'
  = map_set String.eqb c (spread (record_of c r s) pt now) (participants r s).
Proof.
  rewrite upsertParticipant_inr in Hup. injection Hup as <-.
  apply participants_set_same.
Qed.

Lemma upsert_participants_other (r' : jsval) :
  r <> r' -> participants r' s' = participants r' s.
Proof.
  intro Hne. rewrite upsertParticipant_inr in Hup. injection Hup as <-.
  rewrite participants_set_other by exact Hne.
  rewrite <- (participants_ensureRoom r r' s). reflexivity.
Qed.

Lemma upsert_admins (r' : jsval) : admins r' s' = admins r' s.
Proof.
  rewrite upsertParticipant_inr in Hup. injection Hup as <-.
  rewrite <- (admins_ensureRoom r r' s). reflexivity.
Qed.

Lemma upsert_record_same :
  record_of c r s' = Some (spread (record_of c r s) pt now).
Proof.
  unfold record_of at 1. rewrite upsert_participants_same.
  apply (map_get_set_same _ String.eqb_eq).
Qed.

Lemma upsert_record_other (c' : string) (r' : jsval) :
  c' <> c -> record_of c' r' s' = record_of c' r' s.
Proof.
  intro Hne. unfold record_of.
  destruct (jsval_eq_dec r r') as [<- | Hr].
  - rewrite upsert_participants_same.
    apply (map_get_set_other _ String.eqb_eq). congruence.
  - now rewrite upsert_participants_other.
Qed.

Lemma upsert_record_other_room (c' : string) (r' : jsval) :
  r <> r' -> record_of c' r' s' = record_of c' r' s.
Proof. intro H. unfold record_of. now rewrite upsert_participants_other. Qed.

Lemma upsert_known : known r s' = true.
Proof.
  rewrite upsertParticipant_inr in Hup. injection Hup as <-.
  unfold known. simpl.
  rewrite (map_has_set_same _ same_value_zero_eq). simpl.
  apply has_ensure_same.
Qed.

Lemma upsert_known_mono (r' : jsval) : known r' s = true -> known r' s' = true.
Proof.
  intro H. apply (known_ensureRoom_mono r) in H.
  rewrite upsertParticipant_inr in Hup. injection Hup as <-.
  unfold known in *. simpl.
  apply andb_true_iff in H. destruct H as [H1 H2].
  rewrite (map_has_set_mono _ same_value_zero_eq) by exact H1.
  exact H2.
Qed.
End Upsert.

(** *** removeParticipant *)

Lemma remove_participants_same (r : jsval) (c : string) (s : store) :
  participants r (removeParticipant r c s)
  = map_delete String.eqb c (participants r s).
Proof.
  unfold removeParticipant, participants.
  destruct (map_get same_value_zero r (rooms s)) eqn:E; simpl.
  - now rewrite (map_get_set_same _ same_value_zero_eq).
  - now rewrite E.
Qed.

Lemma remove_participants_other (r r' : jsval) (c : string) (s : store) :
  r <> r' -> participants r' (removeParticipant r c s) = participants r' s.
Proof.
  intro Hne. unfold removeParticipant, participants.
  destruct (map_get same_value_zero r (rooms s)) eqn:E; simpl; [|reflexivity].
  now rewrite (map_get_set_other _ same_value_zero_eq).
Qed.

Lemma remove_admins (r r' : jsval) (c : string) (s : store) :
  admins r' (removeParticipant r c s) = admins r' s.
Proof.
  unfold removeParticipant.
  now destruct (map_get same_value_zero r (rooms s)).
Qed.

Lemma remove_record_same (r : jsval) (c : string) (s : store) :
  record_of c r (removeParticipant r c s) = None.
Proof.
  unfold record_of. rewrite remove_participants_same.
  apply map_get_delete_same.
Qed.

Lemma remove_record_other (r r' : jsval) (c c' : string) (s : store) :
  c' <> c -> record_of c' r' (removeParticipant r c s) = record_of c' r' s.
Proof.
  intro Hne. unfold record_of.
  destruct (jsval_eq_dec r r') as [<- | Hr].
  - rewrite remove_participants_same.
    apply (map_get_delete_other _ String.eqb_eq). congruence.
  - now rewrite remove_participants_other.
Qed.

Lemma remove_known_mono (r r' : jsval) (c : string) (s : store) :
  known r' s = true -> known r' (removeParticipant r c s) = true.
Proof.
  unfold removeParticipant.
  destruct (map_get same_value_zero r (rooms s)); [|tauto].
  unfold known. simpl. intro H.
  apply andb_true_iff in H. destruct H as [H1 H2].
  now rewrite (map_has_set_mono _ same_value_zero_eq).
Qed.

(** *** The queries *)

Lemma listAdmins_inr (r : jsval) (s : store) :
  listAdmins r s = inr (admins r s, ensureRoom r s).
Proof.
  unfold listAdmins. cbv zeta. now rewrite roomAdmins_get_ensureRoom.
Qed.

Lemma listStreamEnabledParticipants_inr (r : jsval) (s : store) :
  listStreamEnabledParticipants r s
  = inr (stream_enabled (participants r s), ensureRoom r s).
Proof.
  unfold listStreamEnabledParticipants. cbv zeta.
  now rewrite rooms_get_ensureRoom.
Qed.

(** *** The admin set *)

Lemma known_admins_get (r : jsval) (s : store) :
  known r s = true ->
  map_get same_value_zero r (roomAdmins s) = Some (admins r s).
Proof.
  unfold known, admins, map_has. intro H.
  apply andb_true_iff in H. destruct H as [_ H].
  now destruct (map_get same_value_zero r (roomAdmins s)).
Qed.

Lemma roomAdmins_add_inr (r : jsval) (c : string) (s : store) :
  known r s = true ->
  roomAdmins_add r c s
  = inr (mkStore (rooms s)
           (map_set same_value_zero r (set_add String.eqb c (admins r s))
              (roomAdmins s))).
Proof.
  intro H. unfold roomAdmins_add. now rewrite known_admins_get.
Qed.

Lemma roomAdmins_delete_inr (r : jsval) (c : string) (s : store) :
  known r s = true ->
  roomAdmins_delete r c s
  = inr (mkStore (rooms s)
           (map_set same_value_zero r (set_delete String.eqb c (admins r s))
              (roomAdmins s))).
Proof.
  intro H. unfold roomAdmins_delete. now rewrite known_admins_get.
Qed.

Section AdminSet.
Variables (r : jsval) (c : string) (s s' : store).

Lemma add_admins_same :
  roomAdmins_add r c s = inr s' ->
  forall x, In x (admins r s') <-> x = c \/ In x (admins r s).
Proof.
  unfold roomAdmins_add. intros H x.
  destruct (map_get same_value_zero r (roomAdmins s)) eqn:E; [|discriminate].
  injection H as <-. rewrite admins_set_same.
  unfold admins. rewrite E. apply (set_add_In _ String.eqb_eq).
Qed.

Lemma add_admins_other (r' : jsval) :
  roomAdmins_add r c s = inr s' -> r <> r' -> admins r' s' = admins r' s.
Proof.
  unfold roomAdmins_add. intros H Hne.
  destruct (map_get same_value_zero r (roomAdmins s)); [|discriminate].
  injection H as <-. rewrite admins_set_other by exact Hne.
  now rewrite store_eta.
Qed.

Lemma add_rooms : roomAdmins_add r c s = inr s' -> rooms s' = rooms s.
Proof.
  unfold roomAdmins_add. intro H.
  destruct (map_get same_value_zero r (roomAdmins s)); [|discriminate].
  now injection H as <-.
Qed.

Lemma add_known_mono (r' : jsval) :
  roomAdmins_add r c s = inr s' -> known r' s = true -> known r' s' = true.
Proof.
  unfold roomAdmins_add. intros H Hk.
  destruct (map_get same_value_zero r (roomAdmins s)); [|discriminate].
  injection H as <-. unfold known in *. simpl.
  apply andb_true_iff in Hk. destruct Hk as [-> H2]. simpl.
  now apply (map_has_set_mono _ same_value_zero_eq).
Qed.

Lemma delete_admins_same :
  roomAdmins_delete r c s = inr s' ->
  forall x, In x (admins r s') <-> x <> c /\ In x (admins r s).
Proof.
  unfold roomAdmins_delete. intros H x.
  destruct (map_get same_value_zero r (roomAdmins s)) eqn:E; [|discriminate].
  injection H as <-. rewrite admins_set_same.
  unfold admins. rewrite E. apply (set_delete_In _ String.eqb_eq).
Qed.

Lemma delete_admins_other (r' : jsval) :
  roomAdmins_delete r c s = inr s' -> r <> r' -> admins r' s' = admins r' s.
Proof.
  unfold roomAdmins_delete. intros H Hne.
  destruct (map_get same_value_zero r (roomAdmins s)); [|discriminate].
  injection H as <-. rewrite admins_set_other by exact Hne.
  now rewrite store_eta.
Qed.

Lemma delete_rooms : roomAdmins_delete r c s = inr s' -> rooms s' = rooms s.
Proof.
  unfold roomAdmins_delete. intro H.
  destruct (map_get same_value_zero r (roomAdmins s)); [|discriminate].
  now injection H as <-.
Qed.

Lemma delete_known_mono (r' : jsval) :
  roomAdmins_delete r c s = inr s' -> known r' s = true -> known r' s' = true.
Proof.
  unfold roomAdmins_delete. intros H Hk.
  destruct (map_get same_value_zero r (roomAdmins s)); [|discriminate].
  injection H as <-. unfold known in *. simpl.
  apply andb_true_iff in Hk. destruct Hk as [-> H2]. simpl.
  now apply (map_has_set_mono _ same_value_zero_eq).
Qed.
End AdminSet.

(** ** The derived view *)

Lemma or_zero_id (n : Z) : or_zero n = n.
Proof. unfold or_zero. destruct (Z.eqb_spec n 0); congruence. Qed.

(** The comparator puts [a] no later than [b] exactly when [a] was seen
    no earlier than [b]. *)
Lemma by_lastSeen_desc_le (a b : entry) :
  (by_lastSeen_desc a b <=? 0) = (e_lastSeen b <=? e_lastSeen a).
Proof.
  unfold by_lastSeen_desc. rewrite !or_zero_id.
  destruct (Z.leb_spec (e_lastSeen b) (e_lastSeen a));
    [apply Z.leb_le | apply Z.leb_gt]; lia.
Qed.

Lemma sort_insert_perm (x : entry) (l : list entry) :
  Permutation (sort_insert by_lastSeen_desc x l) (x :: l).
Proof.
  induction l as [|y l IH]; simpl; [constructor; constructor|].
  destruct (by_lastSeen_desc x y <=? 0); [apply Permutation_refl|].
  rewrite IH. apply perm_swap.
Qed.

Lemma array_sort_perm (l : list entry) :
  Permutation (array_sort by_lastSeen_desc l) l.
Proof.
  induction l as [|x l IH]; simpl; [constructor|].
  rewrite sort_insert_perm. now constructor.
Qed.

Lemma sort_insert_sorted (x : entry) (l : list entry) :
  StronglySorted seen_no_later l ->
  StronglySorted seen_no_later (sort_insert by_lastSeen_desc x l).
Proof.
  induction 1 as [|y l Hs IH Hall]; simpl.
  - constructor; constructor.
  - rewrite by_lastSeen_desc_le.
    destruct (Z.leb_spec (e_lastSeen y) (e_lastSeen x)) as [Hle | Hgt].
    + constructor; [now constructor|].
      constructor; [exact Hle|].
      eapply Forall_impl; [|exact Hall].
      unfold seen_no_later. intros z Hz. lia.
    + constructor; [exact IH|].
      eapply Permutation_Forall.
      * symmetry. apply sort_insert_perm.
      * constructor; [unfold seen_no_later; lia | exact Hall].
Qed.

Lemma array_sort_sorted (l : list entry) :
  StronglySorted seen_no_later (array_sort by_lastSeen_desc l).
Proof.
  induction l as [|x l IH]; simpl; [constructor|].
  now apply sort_insert_sorted.
Qed.

(** An element is only ever moved behind strictly more recent ones, so the
    elements with one and the same [lastSeen] keep their order. *)
Lemma sort_insert_stable (t : Z) (x : entry) (l : list entry) :
  filter (fun e => e_lastSeen e =? t) (sort_insert by_lastSeen_desc x l)
  = filter (fun e => e_lastSeen e =? t) (x :: l).
Proof.
  induction l as [|y l IH]; [reflexivity|].
  simpl sort_insert. rewrite by_lastSeen_desc_le.
  destruct (Z.leb_spec (e_lastSeen y) (e_lastSeen x)) as [Hle | Hgt];
    [reflexivity|].
  change (filter ?f (y :: ?m)) with (if f y then y :: filter f m else filter f m).
  rewrite IH. simpl.
  destruct (Z.eqb_spec (e_lastSeen x) t) as [Hx | Hx];
    destruct (Z.eqb_spec (e_lastSeen y) t) as [Hy | Hy];
    try reflexivity.
  lia.
Qed.

Lemma array_sort_stable (t : Z) (l : list entry) :
  filter (fun e => e_lastSeen e =? t) (array_sort by_lastSeen_desc l)
  = filter (fun e => e_lastSeen e =? t) l.
Proof.
  induction l as [|x l IH]; [reflexivity|].
  simpl array_sort. rewrite sort_insert_stable. simpl. now rewrite IH.
Qed.

Lemma sorted_split (l1 l2 : list entry) (a b : entry) :
  StronglySorted seen_no_later (l1 ++ a :: l2) ->
  In b l2 -> e_lastSeen b <= e_lastSeen a.
Proof.
  induction l1 as [|x l1 IH]; simpl; intros Hs Hin.
  - apply StronglySorted_inv in Hs. destruct Hs as [_ Hall].
    rewrite Forall_forall in Hall. exact (Hall b Hin).
  - apply StronglySorted_inv in Hs. destruct Hs as [Hs _]. now apply IH.
Qed.

(** [.map(...).filter(Boolean)] keeps the consenting participants, in scan
    order, each rendered as an entry. *)
Lemma map_filter_project (rm : room) :
  map_filter_Boolean project rm = map render (filter consents rm).
Proof.
  induction rm as [|[sid p] rm IH]; [reflexivity|].
  unfold consents, render in *. simpl.
  destruct (streamAllowed p) as [[|]|]; simpl; now rewrite IH.
Qed.

Lemma stream_enabled_perm (rm : room) :
  Permutation (stream_enabled rm) (map render (filter consents rm)).
Proof.
  unfold stream_enabled. rewrite array_sort_perm.
  now rewrite map_filter_project.
Qed.

Lemma stream_enabled_In (rm : room) (e : entry) :
  In e (stream_enabled rm) <->
  exists sid p, In (sid, p) rm /\ streamAllowed p = Some true
                /\ e = mkEntry sid (read (userId p)) (read (displayName p))
                         (lastSeen p).
Proof.
  split.
  - intro H. apply (Permutation_in _ (stream_enabled_perm rm)) in H.
    apply in_map_iff in H. destruct H as [[sid p] [<- H]].
    apply filter_In in H. destruct H as [Hin Hc].
    exists sid, p. repeat split; [exact Hin|].
    unfold consents in Hc. simpl in Hc.
    now destruct (streamAllowed p) as [[|]|].
  - intros [sid [p [Hin [Hc ->]]]].
    apply (Permutation_in _ (Permutation_sym (stream_enabled_perm rm))).
    apply in_map_iff. exists (sid, p). split; [reflexivity|].
    apply filter_In. split; [exact Hin|].
    unfold consents. simpl. now rewrite Hc.
Qed.

(** Who is listed has a record in the room. *)
Lemma stream_enabled_socket (rm : room) (c : string) :
  In c (map e_socketId (stream_enabled rm)) ->
  exists p, In (c, p) rm /\ streamAllowed p = Some true.
Proof.
  intro H. apply in_map_iff in H. destruct H as [e [<- He]].
  apply stream_enabled_In in He. destruct He as [sid [p [Hin [Hc ->]]]].
  now exists p.
Qed.

(** ** What each handler does *)

Arguments ensureRoom : simpl never.
Arguments upsertParticipant : simpl never.
Arguments removeParticipant : simpl never.
Arguments listAdmins : simpl never.
Arguments listStreamEnabledParticipants : simpl never.
Arguments roomAdmins_add : simpl never.
Arguments roomAdmins_delete : simpl never.
Arguments stream_enabled : simpl never.
Arguments map_set : simpl never.
Arguments data_of : simpl never.
Arguments participants : simpl never.
Arguments admins : simpl never.
Arguments truthy : simpl never.
Arguments prop : simpl never.
Arguments to_string : simpl never.
Arguments String.append : simpl never.

Ltac mrun :=
  unfold step, on_join, on_ping, on_stream_consent, on_admin_subscribe,
    on_webrtc_offer, on_webrtc_answer, on_webrtc_ice, relay, on_disconnect,
    broadcastAdminUpdate, unpack, template, set_role, set_roomId, set_userId;
  unfold bind, ret, throw, get_data, set_data, update, query, emit, socket_join;
  simpl.

Lemma upsertParticipant_ensureRoom (now : Z) (r : jsval) (c : string)
    (pt : patch) (s : store) :
  upsertParticipant now r c pt (ensureRoom r s) = upsertParticipant now r c pt s.
Proof.
  rewrite !upsertParticipant_inr. unfold record_of.
  now rewrite !participants_ensureRoom, ensureRoom_idempotent.
Qed.

Lemma upsertParticipant_returns (now : Z) (r : jsval) (c : string) (pt : patch)
    (s : store) :
  exists s', upsertParticipant now r c pt s = inr s'.
Proof. eexists. apply upsertParticipant_inr. Qed.

Lemma data_of_put_same (c : string) (d : sockdata) (s : store)
    (m : list (string * sockdata)) :
  data_of c (mkWorld s (map_set String.eqb c d m)) = d.
Proof.
  unfold data_of. cbn [w_data].
  now rewrite (map_get_set_same _ String.eqb_eq).
Qed.

Lemma data_of_put_other (c c' : string) (d : sockdata) (s s0 : store)
    (m : list (string * sockdata)) :
  c <> c' ->
  data_of c' (mkWorld s (map_set String.eqb c d m)) = data_of c' (mkWorld s0 m).
Proof.
  intro H. unfold data_of. cbn [w_data].
  now rewrite (map_get_set_other _ String.eqb_eq).
Qed.

Lemma data_of_store (c : string) (s s0 : store) (m : list (string * sockdata)) :
  data_of c (mkWorld s m) = data_of c (mkWorld s0 m).
Proof. reflexivity. Qed.

Section Handlers.
Variables (c : string) (now : Z) (w : world).

(** A parameter that cannot be destructured makes the handler throw
    before it has done anything. *)
Lemma on_join_throw (arg : payload) (e : jserror) :
  destructure arg = inl e -> on_join c now arg w = Throw e w [].
Proof. intro H. mrun. now rewrite H. Qed.

Lemma on_stream_consent_throw (arg : payload) (e : jserror) :
  destructure arg = inl e -> on_stream_consent c now arg w = Throw e w [].
Proof. intro H. mrun. now rewrite H. Qed.

Lemma on_admin_subscribe_throw (arg : payload) (e : jserror) :
  destructure arg = inl e -> on_admin_subscribe c arg w = Throw e w [].
Proof. intro H. mrun. now rewrite H. Qed.

Lemma relay_throw (ev field : string) (arg : payload) (e : jserror) :
  destructure arg = inl e -> relay ev field c arg w = Throw e w [].
Proof. intro H. mrun. now rewrite H. Qed.

(** The guards. *)
Lemma on_join_ignored (arg : payload) (o : list (string * jsval)) :
  destructure arg = inr o ->
  truthy (prop "roomId" o) && truthy (prop "userId" o) = false ->
  on_join c now arg w = Ok tt w [].
Proof.
  intros Hd H. mrun. rewrite Hd. simpl.
  rewrite <- negb_andb, H. reflexivity.
Qed.

Lemma on_stream_consent_ignored (arg : payload) (o : list (string * jsval)) :
  destructure arg = inr o ->
  truthy (prop "roomId" o) && truthy (prop "userId" o) = false ->
  on_stream_consent c now arg w = Ok tt w [].
Proof.
  intros Hd H. mrun. rewrite Hd. simpl.
  rewrite <- negb_andb, H. reflexivity.
Qed.

Lemma on_admin_subscribe_ignored (arg : payload) (o : list (string * jsval)) :
  destructure arg = inr o ->
  truthy (prop "roomId" o) = false ->
  on_admin_subscribe c arg w = Ok tt w [].
Proof. intros Hd H. mrun. rewrite Hd. simpl. now rewrite H. Qed.

Lemma on_ping_ignored :
  truthy (d_roomId (data_of c w)) = false -> on_ping c now w = Ok tt w [].
Proof. intro H. mrun. now rewrite H. Qed.

Lemma on_disconnect_ignored :
  truthy (d_roomId (data_of c w)) = false -> on_disconnect c w = Ok tt w [].
Proof. intro H. mrun. now rewrite H. Qed.

(** Past the guard, with a room id that has a string form. *)
Lemma on_join_run (arg : payload) (o : list (string * jsval)) (name : string) :
  destructure arg = inr o ->
  truthy (prop "roomId" o) = true -> truthy (prop "userId" o) = true ->
  to_string (prop "roomId" o) = Some name ->
  exists s',
    upsertParticipant now (prop "roomId" o) c
      (mkPatch (Some (prop "userId" o))
         (Some (js_or (prop "displayName" o) (prop "userId" o))) None)
      (w_store w) = inr s'
    /\ on_join c now arg w
       = Ok tt
           (mkWorld s'
              (map_set String.eqb c
                 (mkData (Some Participant) (prop "roomId" o)
                    (prop "userId" o))
                 (w_data w)))
           [SocketJoin c ("room:" ++ name);
            Emit (ThisSocket c) "admin:list"
              (AdminList (prop "roomId" o) (admins (prop "roomId" o) s'));
            Emit (Group ("admin:" ++ name)) "room:update"
              (RoomUpdate
                 (stream_enabled (participants (prop "roomId" o) s')))].
Proof.
  intros Hd Hr Hu Hn.
  destruct (upsertParticipant_returns now (prop "roomId" o) c
              (mkPatch (Some (prop "userId" o))
                 (Some (js_or (prop "displayName" o) (prop "userId" o))) None)
              (w_store w)) as [s' Hup].
  exists s'. split; [exact Hup|].
  assert (Hk : known (prop "roomId" o) s' = true)
    by (eapply upsert_known; eauto).
  destruct w as [s data]. simpl in Hup.
  mrun. rewrite Hd. simpl. rewrite Hr, Hu. simpl. rewrite Hn. simpl.
  rewrite !data_of_put_same. simpl.
  rewrite upsertParticipant_ensureRoom, Hup. simpl.
  rewrite listAdmins_inr. simpl.
  rewrite listStreamEnabledParticipants_inr. simpl.
  rewrite !(ensureRoom_known _ s') by exact Hk.
  now rewrite !(map_set_set _ String.eqb_eq).
Qed.

(** [socket.join(`room:${roomId}`)] throws for a room id without a string
    form: the connection's data are written and the room is made, the
    record is not. *)
Lemma on_join_crash (arg : payload) (o : list (string * jsval)) :
  destructure arg = inr o ->
  truthy (prop "roomId" o) = true -> truthy (prop "userId" o) = true ->
  to_string (prop "roomId" o) = None ->
  on_join c now arg w
  = Throw TypeError
      (mkWorld (ensureRoom (prop "roomId" o) (w_store w))
         (map_set String.eqb c
            (mkData (Some Participant) (prop "roomId" o) (prop "userId" o))
            (w_data w)))
      [].
Proof.
  intros Hd Hr Hu Hn. destruct w as [s data].
  mrun. rewrite Hd. simpl. rewrite Hr, Hu. simpl. rewrite Hn. simpl.
  rewrite !data_of_put_same. simpl.
  now rewrite !(map_set_set _ String.eqb_eq).
Qed.

Lemma on_ping_run (name : string) :
  truthy (d_roomId (data_of c w)) = true ->
  to_string (d_roomId (data_of c w)) = Some name ->
  exists s',
    upsertParticipant now (d_roomId (data_of c w)) c (mkPatch None None None)
      (w_store w) = inr s'
    /\ on_ping c now w
       = Ok tt (mkWorld s' (w_data w))
           [Emit (Group ("admin:" ++ name)) "room:update"
              (RoomUpdate
                 (stream_enabled (participants (d_roomId (data_of c w)) s')))].
Proof.
  intros Hr Hn.
  destruct (upsertParticipant_returns now (d_roomId (data_of c w)) c
              (mkPatch None None None) (w_store w)) as [s' Hup].
  exists s'. split; [exact Hup|].
  assert (Hk : known (d_roomId (data_of c w)) s' = true)
    by (eapply upsert_known; eauto).
  mrun. rewrite Hr. simpl. rewrite Hup. simpl. rewrite Hn. simpl.
  rewrite listStreamEnabledParticipants_inr. simpl.
  now rewrite !(ensureRoom_known _ s') by exact Hk.
Qed.

Lemma on_ping_crash :
  truthy (d_roomId (data_of c w)) = true ->
  to_string (d_roomId (data_of c w)) = None ->
  exists s',
    upsertParticipant now (d_roomId (data_of c w)) c (mkPatch None None None)
      (w_store w) = inr s'
    /\ on_ping c now w = Throw TypeError (mkWorld s' (w_data w)) [].
Proof.
  intros Hr Hn.
  destruct (upsertParticipant_returns now (d_roomId (data_of c w)) c
              (mkPatch None None None) (w_store w)) as [s' Hup].
  exists s'. split; [exact Hup|].
  mrun. rewrite Hr. simpl. rewrite Hup. simpl. now rewrite Hn.
Qed.

Lemma on_stream_consent_run (arg : payload) (o : list (string * jsval))
    (name : string) :
  destructure arg = inr o ->
  truthy (prop "roomId" o) = true -> truthy (prop "userId" o) = true ->
  to_string (prop "roomId" o) = Some name ->
  exists s',
    upsertParticipant now (prop "roomId" o) c
      (mkPatch (Some (prop "userId" o)) None (Some (truthy (prop "allow" o))))
      (w_store w) = inr s'
    /\ on_stream_consent c now arg w
       = Ok tt (mkWorld s' (w_data w))
           [Emit (ThisSocket c) "admin:list"
              (AdminList (prop "roomId" o) (admins (prop "roomId" o) s'));
            Emit (Group ("admin:" ++ name)) "room:update"
              (RoomUpdate
                 (stream_enabled (participants (prop "roomId" o) s')));
            Emit (Group ("admin:" ++ name)) "participant:streamAllowed"
              (StreamAllowed c (prop "userId" o) (truthy (prop "allow" o)))].
Proof.
  intros Hd Hr Hu Hn.
  destruct (upsertParticipant_returns now (prop "roomId" o) c
              (mkPatch (Some (prop "userId" o)) None
                 (Some (truthy (prop "allow" o))))
              (w_store w)) as [s' Hup].
  exists s'. split; [exact Hup|].
  assert (Hk : known (prop "roomId" o) s' = true)
    by (eapply upsert_known; eauto).
  mrun. rewrite Hd. simpl. rewrite Hr, Hu. simpl. rewrite Hup. simpl.
  rewrite listAdmins_inr. simpl. rewrite Hn. simpl.
  rewrite listStreamEnabledParticipants_inr. simpl.
  now rewrite !(ensureRoom_known _ s') by exact Hk.
Qed.

(** The record is written and the admin list sent before
    [io.to(`admin:${roomId}`)] throws. *)
Lemma on_stream_consent_crash (arg : payload) (o : list (string * jsval)) :
  destructure arg = inr o ->
  truthy (prop "roomId" o) = true -> truthy (prop "userId" o) = true ->
  to_string (prop "roomId" o) = None ->
  exists s',
    upsertParticipant now (prop "roomId" o) c
      (mkPatch (Some (prop "userId" o)) None (Some (truthy (prop "allow" o))))
      (w_store w) = inr s'
    /\ on_stream_consent c now arg w
       = Throw TypeError (mkWorld s' (w_data w))
           [Emit (ThisSocket c) "admin:list"
              (AdminList (prop "roomId" o) (admins (prop "roomId" o) s'))].
Proof.
  intros Hd Hr Hu Hn.
  destruct (upsertParticipant_returns now (prop "roomId" o) c
              (mkPatch (Some (prop "userId" o)) None
                 (Some (truthy (prop "allow" o))))
              (w_store w)) as [s' Hup].
  exists s'. split; [exact Hup|].
  assert (Hk : known (prop "roomId" o) s' = true)
    by (eapply upsert_known; eauto).
  mrun. rewrite Hd. simpl. rewrite Hr, Hu. simpl. rewrite Hup. simpl.
  rewrite listAdmins_inr. simpl. rewrite Hn. simpl.
  now rewrite !(ensureRoom_known _ s') by exact Hk.
Qed.

Lemma on_admin_subscribe_run (arg : payload) (o : list (string * jsval))
    (name : string) :
  destructure arg = inr o ->
  truthy (prop "roomId" o) = true ->
  to_string (prop "roomId" o) = Some name ->
  exists s',
    roomAdmins_add (prop "roomId" o) c (ensureRoom (prop "roomId" o) (w_store w))
    = inr s'
    /\ on_admin_subscribe c arg w
       = Ok tt
           (mkWorld s'
              (map_set String.eqb c
                 (mkData (Some Admin) (prop "roomId" o)
                    (d_userId (data_of c w)))
                 (w_data w)))
           [SocketJoin c ("admin:" ++ name);
            Emit (ThisSocket c) "room:update"
              (RoomUpdate
                 (stream_enabled (participants (prop "roomId" o) s')));
            Emit (Group ("room:" ++ name)) "admin:online" (AdminSocket c)].
Proof.
  intros Hd Hr Hn.
  pose proof (roomAdmins_add_inr (prop "roomId" o) c _
                (known_ensureRoom (prop "roomId" o) (w_store w))) as Hadd.
  eexists. split; [exact Hadd|].
  match type of Hadd with _ = inr ?x => set (s' := x) in * end.
  assert (Hk : known (prop "roomId" o) s' = true).
  { eapply add_known_mono; [exact Hadd | apply known_ensureRoom]. }
  destruct w as [s data]. simpl in Hadd.
  mrun. rewrite Hd. simpl. rewrite Hr. simpl.
  rewrite !data_of_put_same. simpl.
  rewrite Hadd. simpl. rewrite Hn. simpl.
  rewrite listStreamEnabledParticipants_inr. simpl.
  rewrite !(ensureRoom_known _ s') by exact Hk.
  now rewrite !(map_set_set _ String.eqb_eq).
Qed.

(** The connection is in the admin set before
    [socket.join(`admin:${roomId}`)] throws. *)
Lemma on_admin_subscribe_crash (arg : payload) (o : list (string * jsval)) :
  destructure arg = inr o ->
  truthy (prop "roomId" o) = true ->
  to_string (prop "roomId" o) = None ->
  exists s',
    roomAdmins_add (prop "roomId" o) c (ensureRoom (prop "roomId" o) (w_store w))
    = inr s'
    /\ on_admin_subscribe c arg w
       = Throw TypeError
           (mkWorld s'
              (map_set String.eqb c
                 (mkData (Some Admin) (prop "roomId" o)
                    (d_userId (data_of c w)))
                 (w_data w)))
           [].
Proof.
  intros Hd Hr Hn.
  pose proof (roomAdmins_add_inr (prop "roomId" o) c _
                (known_ensureRoom (prop "roomId" o) (w_store w))) as Hadd.
  eexists. split; [exact Hadd|].
  match type of Hadd with _ = inr ?x => set (s' := x) in * end.
  destruct w as [s data]. simpl in Hadd.
  mrun. rewrite Hd. simpl. rewrite Hr. simpl.
  rewrite !data_of_put_same. simpl.
  rewrite Hadd. simpl. rewrite Hn. simpl.
  now rewrite !(map_set_set _ String.eqb_eq).
Qed.

Lemma relay_run (ev field : string) (arg : payload)
    (o : list (string * jsval)) :
  destructure arg = inr o ->
  relay ev field c arg w
  = Ok tt w [Emit (Direct (prop "to" o)) ev (Signal c field (prop field o))].
Proof. intro Hd. mrun. now rewrite Hd. Qed.

Lemma on_disconnect_admin (name : string) :
  truthy (d_roomId (data_of c w)) = true ->
  d_role (data_of c w) = Some Admin ->
  to_string (d_roomId (data_of c w)) = Some name ->
  exists s',
    roomAdmins_delete (d_roomId (data_of c w)) c
      (ensureRoom (d_roomId (data_of c w)) (w_store w)) = inr s'
    /\ on_disconnect c w
       = Ok tt (mkWorld s' (w_data w))
           [Emit (Group ("room:" ++ name)) "admin:offline" (AdminSocket c);
            Emit (Group ("admin:" ++ name)) "room:update"
              (RoomUpdate
                 (stream_enabled (participants (d_roomId (data_of c w)) s')))].
Proof.
  intros Hr Hrole Hn.
  pose proof (roomAdmins_delete_inr (d_roomId (data_of c w)) c _
                (known_ensureRoom (d_roomId (data_of c w)) (w_store w)))
    as Hdel.
  eexists. split; [exact Hdel|].
  match type of Hdel with _ = inr ?x => set (s' := x) in * end.
  assert (Hk : known (d_roomId (data_of c w)) s' = true).
  { eapply delete_known_mono; [exact Hdel | apply known_ensureRoom]. }
  mrun. rewrite Hr, Hrole. simpl. rewrite Hdel. simpl. rewrite Hn. simpl.
  rewrite listStreamEnabledParticipants_inr. simpl.
  now rewrite !(ensureRoom_known _ s') by exact Hk.
Qed.

Lemma on_disconnect_admin_crash :
  truthy (d_roomId (data_of c w)) = true ->
  d_role (data_of c w) = Some Admin ->
  to_string (d_roomId (data_of c w)) = None ->
  exists s',
    roomAdmins_delete (d_roomId (data_of c w)) c
      (ensureRoom (d_roomId (data_of c w)) (w_store w)) = inr s'
    /\ on_disconnect c w = Throw TypeError (mkWorld s' (w_data w)) [].
Proof.
  intros Hr Hrole Hn.
  pose proof (roomAdmins_delete_inr (d_roomId (data_of c w)) c _
                (known_ensureRoom (d_roomId (data_of c w)) (w_store w)))
    as Hdel.
  eexists. split; [exact Hdel|].
  mrun. rewrite Hr, Hrole. simpl. rewrite Hdel. simpl. now rewrite Hn.
Qed.

Lemma on_disconnect_participant (name : string) :
  truthy (d_roomId (data_of c w)) = true ->
  d_role (data_of c w) = Some Participant ->
  to_string (d_roomId (data_of c w)) = Some name ->
  on_disconnect c w
  = Ok tt
      (mkWorld
         (ensureRoom (d_roomId (data_of c w))
            (removeParticipant (d_roomId (data_of c w)) c (w_store w)))
         (w_data w))
      [Emit (Group ("admin:" ++ name)) "room:update"
         (RoomUpdate
            (stream_enabled
               (participants (d_roomId (data_of c w))
                  (removeParticipant (d_roomId (data_of c w)) c
                     (w_store w)))))].
Proof.
  intros Hr Hrole Hn. mrun. rewrite Hr, Hrole. simpl. rewrite Hn. simpl.
  now rewrite listStreamEnabledParticipants_inr.
Qed.

Lemma on_disconnect_participant_crash :
  truthy (d_roomId (data_of c w)) = true ->
  d_role (data_of c w) = Some Participant ->
  to_string (d_roomId (data_of c w)) = None ->
  on_disconnect c w
  = Throw TypeError
      (mkWorld (removeParticipant (d_roomId (data_of c w)) c (w_store w))
         (w_data w))
      [].
Proof. intros Hr Hrole Hn. mrun. rewrite Hr, Hrole. simpl. now rewrite Hn. Qed.

Lemma on_disconnect_no_role (name : string) :
  truthy (d_roomId (data_of c w)) = true ->
  d_role (data_of c w) = None ->
  to_string (d_roomId (data_of c w)) = Some name ->
  on_disconnect c w
  = Ok tt
      (mkWorld (ensureRoom (d_roomId (data_of c w)) (w_store w)) (w_data w))
      [Emit (Group ("admin:" ++ name)) "room:update"
         (RoomUpdate
            (stream_enabled
               (participants (d_roomId (data_of c w)) (w_store w))))].
Proof.
  intros Hr Hrole Hn. mrun. rewrite Hr, Hrole. simpl. rewrite Hn. simpl.
  now rewrite listStreamEnabledParticipants_inr.
Qed.

Lemma on_disconnect_no_role_crash :
  truthy (d_roomId (data_of c w)) = true ->
  d_role (data_of c w) = None ->
  to_string (d_roomId (data_of c w)) = None ->
  on_disconnect c w = Throw TypeError w [].
Proof.
  intros Hr Hrole Hn. mrun. rewrite Hr, Hrole. simpl. rewrite Hn.
  now destruct w.
Qed.
End Handlers.

(** ** Case analysis on an event *)

(** One case per handler and branch, each with an equation [Hrun] that
    gives what the handler computes there. *)
Ltac handler_cases c now ev w Hrun :=
  let arg := fresh "arg" in
  let e := fresh "e" in
  let fields := fresh "fields" in
  let Hd := fresh "Hd" in
  let s' := fresh "s'" in
  let Hst := fresh "Hst" in
  let Hroom := fresh "Hroom" in
  let Huser := fresh "Huser" in
  let Hrole := fresh "Hrole" in
  let name := fresh "name" in
  let Hname := fresh "Hname" in
  destruct ev as [arg| |arg|arg|arg|arg|arg|];
  [ (* join *)
    destruct (destructure arg) as [e|fields] eqn:Hd;
    [ assert (Hrun := on_join_throw c now w arg e Hd)
    | destruct (truthy (prop "roomId" fields)) eqn:Hroom;
      [ destruct (truthy (prop "userId" fields)) eqn:Huser;
        [ destruct (to_string (prop "roomId" fields)) as [name|] eqn:Hname;
          [ destruct (on_join_run c now w arg fields name Hd Hroom Huser
                        Hname) as (s' & Hst & Hrun)
          | assert (Hrun := on_join_crash c now w arg fields Hd Hroom Huser
                              Hname) ]
        | assert (Hrun := on_join_ignored c now w arg fields Hd);
          rewrite Hroom, Huser in Hrun; specialize (Hrun eq_refl) ]
      | assert (Hrun := on_join_ignored c now w arg fields Hd);
        rewrite Hroom in Hrun; specialize (Hrun eq_refl) ] ]
  | (* ping *)
    destruct (truthy (d_roomId (data_of c w))) eqn:Hroom;
    [ destruct (to_string (d_roomId (data_of c w))) as [name|] eqn:Hname;
      [ destruct (on_ping_run c now w name Hroom Hname) as (s' & Hst & Hrun)
      | destruct (on_ping_crash c now w Hroom Hname) as (s' & Hst & Hrun) ]
    | assert (Hrun := on_ping_ignored c now w Hroom) ]
  | (* stream:consent *)
    destruct (destructure arg) as [e|fields] eqn:Hd;
    [ assert (Hrun := on_stream_consent_throw c now w arg e Hd)
    | destruct (truthy (prop "roomId" fields)) eqn:Hroom;
      [ destruct (truthy (prop "userId" fields)) eqn:Huser;
        [ destruct (to_string (prop "roomId" fields)) as [name|] eqn:Hname;
          [ destruct (on_stream_consent_run c now w arg fields name Hd Hroom
                        Huser Hname) as (s' & Hst & Hrun)
          | destruct (on_stream_consent_crash c now w arg fields Hd Hroom
                        Huser Hname) as (s' & Hst & Hrun) ]
        | assert (Hrun := on_stream_consent_ignored c now w arg fields Hd);
          rewrite Hroom, Huser in Hrun; specialize (Hrun eq_refl) ]
      | assert (Hrun := on_stream_consent_ignored c now w arg fields Hd);
        rewrite Hroom in Hrun; specialize (Hrun eq_refl) ] ]
  | (* admin:subscribe *)
    destruct (destructure arg) as [e|fields] eqn:Hd;
    [ assert (Hrun := on_admin_subscribe_throw c w arg e Hd)
    | destruct (truthy (prop "roomId" fields)) eqn:Hroom;
      [ destruct (to_string (prop "roomId" fields)) as [name|] eqn:Hname;
        [ destruct (on_admin_subscribe_run c w arg fields name Hd Hroom
                      Hname) as (s' & Hst & Hrun)
        | destruct (on_admin_subscribe_crash c w arg fields Hd Hroom Hname)
            as (s' & Hst & Hrun) ]
      | assert (Hrun := on_admin_subscribe_ignored c w arg fields Hd
                          Hroom) ] ]
  | (* webrtc:offer *)
    destruct (destructure arg) as [e|fields] eqn:Hd;
    [ assert (Hrun := relay_throw c w "webrtc:offer" "sdp" arg e Hd)
    | assert (Hrun := relay_run c w "webrtc:offer" "sdp" arg fields Hd) ]
  | (* webrtc:answer *)
    destruct (destructure arg) as [e|fields] eqn:Hd;
    [ assert (Hrun := relay_throw c w "webrtc:answer" "sdp" arg e Hd)
    | assert (Hrun := relay_run c w "webrtc:answer" "sdp" arg fields Hd) ]
  | (* webrtc:ice *)
    destruct (destructure arg) as [e|fields] eqn:Hd;
    [ assert (Hrun := relay_throw c w "webrtc:ice" "candidate" arg e Hd)
    | assert (Hrun := relay_run c w "webrtc:ice" "candidate" arg fields Hd) ]
  | (* disconnect *)
    destruct (truthy (d_roomId (data_of c w))) eqn:Hroom;
    [ destruct (d_role (data_of c w)) as [[|]|] eqn:Hrole;
      (destruct (to_string (d_roomId (data_of c w))) as [name|] eqn:Hname);
      [ assert (Hrun := on_disconnect_participant c w name Hroom Hrole Hname)
      | assert (Hrun := on_disconnect_participant_crash c w Hroom Hrole Hname)
      | destruct (on_disconnect_admin c w name Hroom Hrole Hname)
          as (s' & Hst & Hrun)
      | destruct (on_disconnect_admin_crash c w Hroom Hrole Hname)
          as (s' & Hst & Hrun)
      | assert (Hrun := on_disconnect_no_role c w name Hroom Hrole Hname)
      | assert (Hrun := on_disconnect_no_role_crash c w Hroom Hrole Hname) ]
    | assert (Hrun := on_disconnect_ignored c w Hroom) ]
  ].

(** From [H : step i w = Ok tt w' o]: the cases in which the handler
    returns, with [w'] and [o] replaced by what it computes. *)
Ltac step_cases H :=
  match type of H with
  | step ?i ?w = Ok ?u ?w' ?o =>
      let c := fresh "sock" in
      let now := fresh "now" in
      let ev := fresh "ev" in
      let Hrun := fresh "Hrun" in
      destruct i as [c now ev];
      unfold step in H; cbn [i_socket i_now i_event] in *;
      handler_cases c now ev w Hrun;
      unfold on_webrtc_offer, on_webrtc_answer, on_webrtc_ice in H;
      rewrite Hrun in H;
      first [discriminate H | injection H as <- <-]; clear Hrun
  end.

(** For a goal about [step i w], returned or not: every case, with
    [step i w] replaced by what the handler computes. *)
Ltac outcome_cases i w :=
  let c := fresh "sock" in
  let now := fresh "now" in
  let ev := fresh "ev" in
  let Hrun := fresh "Hrun" in
  destruct i as [c now ev];
  unfold step; cbn [i_socket i_now i_event] in *;
  handler_cases c now ev w Hrun;
  unfold on_webrtc_offer, on_webrtc_answer, on_webrtc_ice;
  rewrite Hrun; cbn [after sent]; clear Hrun.

Lemma step_touches (i : input) (w w' : world) (o : list action) :
  step i w = Ok tt w' o ->
  touches (i_socket i) (is_disconnect (i_event i)) (w_store w) (w_store w').
Proof.
  intro H. step_cases H; cbn [w_store is_disconnect];
    try apply touch_none;
    try (eapply touch_upsert; eassumption).
  - eapply touch_then; [apply touch_ensure | eapply touch_add; eassumption].
  - eapply touch_then; [apply touch_remove | apply touch_ensure].
  - eapply touch_then; [apply touch_ensure | eapply touch_delete; eassumption].
  - apply touch_ensure.
Qed.

(** The same for the world an event leaves when its handler throws. *)
Lemma outcome_touches (i : input) (w : world) :
  touches (i_socket i) (is_disconnect (i_event i)) (w_store w)
    (w_store (after (step i w))).
Proof.
  outcome_cases i w; cbn [w_store is_disconnect];
    try apply touch_none;
    try (eapply touch_upsert; eassumption);
    try apply touch_ensure;
    try apply touch_remove;
    try (eapply touch_then; [apply touch_ensure | eapply touch_add; eassumption]);
    try (eapply touch_then;
         [apply touch_ensure | eapply touch_delete; eassumption]).
  eapply touch_then; [apply touch_remove | apply touch_ensure].
Qed.

(** An event is handled to the end exactly when it survives. *)
Lemma step_returns (i : input) (w : world) :
  survives i w = true -> exists w' o, step i w = Ok tt w' o.
Proof.
  unfold survives, passes_guard, event_room, has_string.
  outcome_cases i w; cbn [destructurable];
    rewrite ?Hd, ?Hroom, ?Huser, ?Hname; cbn [andb orb negb];
    try discriminate; intros _; eauto.
Qed.

Lemma step_crashes (i : input) (w : world) :
  survives i w = false ->
  exists w' o, step i w = Throw TypeError w' o.
Proof.
  unfold survives, passes_guard, event_room, has_string.
  outcome_cases i w; cbn [destructurable];
    rewrite ?Hd, ?Hroom, ?Huser, ?Hname; cbn [andb orb negb];
    try discriminate; intros _; try destruct e; eauto.
Qed.

(** ** What the store operations of one connection leave alone *)

(** Only the disconnect handler of the connection itself takes it out of an
    admin set. *)
Lemma touches_admins (c0 c : string) (closing : bool) (r : jsval)
    (s s' : store) :
  touches c0 closing s s' ->
  (closing = true -> c0 <> c) ->
  In c (admins r s) -> In c (admins r s').
Proof.
  induction 1 as [ | closing r0 s | closing now r0 pt s s' Hup
                 | closing r0 s s' Hadd | r0 s s' Hdel | r0 s
                 | closing s1 s2 s3 _ IH1 _ IH2 ]; intros Hc Hin.
  - exact Hin.
  - now rewrite admins_ensureRoom.
  - now rewrite (upsert_admins _ _ _ _ _ _ Hup).
  - destruct (jsval_eq_dec r0 r) as [-> | Hne].
    + apply (add_admins_same _ _ _ _ Hadd). now right.
    + now rewrite (add_admins_other _ _ _ _ _ Hadd Hne).
  - destruct (jsval_eq_dec r0 r) as [-> | Hne].
    + apply (delete_admins_same _ _ _ _ Hdel). split; [|exact Hin].
      intros ->. now apply Hc.
    + now rewrite (delete_admins_other _ _ _ _ _ Hdel Hne).
  - now rewrite remove_admins.
  - auto.
Qed.

(** The record of another connection stays as it is. *)
Lemma touches_record_other (c0 c : string) (closing : bool) (r : jsval)
    (s s' : store) :
  touches c0 closing s s' -> c <> c0 -> record_of c r s' = record_of c r s.
Proof.
  induction 1 as [ | closing r0 s | closing now r0 pt s s' Hup
                 | closing r0 s s' Hadd | r0 s s' Hdel | r0 s
                 | closing s1 s2 s3 _ IH1 _ IH2 ]; intro Hc.
  - reflexivity.
  - unfold record_of. now rewrite participants_ensureRoom.
  - now apply (upsert_record_other _ _ _ _ _ _ Hup).
  - unfold record_of, participants. now rewrite (add_rooms _ _ _ _ Hadd).
  - unfold record_of, participants. now rewrite (delete_rooms _ _ _ _ Hdel).
  - now apply remove_record_other.
  - rewrite IH2, IH1; auto.
Qed.

(** Rooms are never taken out of the store. *)
Lemma touches_known (c0 : string) (closing : bool) (r : jsval) (s s' : store) :
  touches c0 closing s s' -> known r s = true -> known r s' = true.
Proof.
  induction 1 as [ | closing r0 s | closing now r0 pt s s' Hup
                 | closing r0 s s' Hadd | r0 s s' Hdel | r0 s
                 | closing s1 s2 s3 _ IH1 _ IH2 ]; intro Hk.
  - exact Hk.
  - now apply known_ensureRoom_mono.
  - now apply (upsert_known_mono _ _ _ _ _ _ Hup).
  - now apply (add_known_mono _ _ _ _ _ Hadd).
  - now apply (delete_known_mono _ _ _ _ _ Hdel).
  - now apply remove_known_mono.
  - auto.
Qed.

(** ** What a handled event leaves alone *)

Lemma step_data_other (i : input) (w w' : world) (o : list action) (c : string) :
  step i w = Ok tt w' o -> c <> i_socket i -> data_of c w' = data_of c w.
Proof.
  intros H Hc. destruct w as [s data].
  step_cases H; cbn [w_data w_store] in *; try reflexivity;
    apply data_of_put_other; congruence.
Qed.

Lemma outcome_data_other (i : input) (w : world) (c : string) :
  c <> i_socket i -> data_of c (after (step i w)) = data_of c w.
Proof.
  intro Hc. destruct w as [s data].
  outcome_cases i (mkWorld s data); cbn [w_data w_store i_socket] in *;
    try reflexivity; apply data_of_put_other; congruence.
Qed.

(** A [room:update] carries the view of the room the event works on, read
    in the store the handler leaves behind; the room is known there and
    has a string form.  The message goes to that room's admin group or,
    from [admin:subscribe], back to the sender. *)
Lemma step_room_update (i : input) (w w' : world) (o : list action)
    (t : target) (ev : string) (l : list entry) :
  step i w = Ok tt w' o ->
  In (Emit t ev (RoomUpdate l)) o ->
  l = stream_enabled (participants (event_room i w) (w_store w'))
  /\ known (event_room i w) (w_store w') = true
  /\ exists name,
       to_string (event_room i w) = Some name
       /\ (t = Group ("admin:" ++ name)
           \/ (t = ThisSocket (i_socket i)
               /\ exists arg, i_event i = EvAdminSubscribe arg)).
Proof.
  intros H Hin. unfold event_room.
  step_cases H; cbn [w_store i_socket i_event] in *; rewrite ?Hd;
    repeat (destruct Hin as [Hin | Hin]; [try discriminate Hin|]);
    try contradiction;
    injection Hin as <- <- <-;
    (split; [|split; [|exists name; split; [first [exact Hname | reflexivity] | eauto]]]);
    try reflexivity;
    try (eapply upsert_known; eassumption);
    try (eapply add_known_mono; [eassumption | apply known_ensureRoom]);
    try (eapply delete_known_mono; [eassumption | apply known_ensureRoom]);
    try apply known_ensureRoom;
    now rewrite participants_ensureRoom.
Qed.

(** A room id recorded for a connection names a room the store knows. *)
Lemma step_rooms_recorded (i : input) (w w' : world) (o : list action) :
  step i w = Ok tt w' o -> rooms_recorded w -> rooms_recorded w'.
Proof.
  intros H Hinv c Hc.
  pose proof (step_touches _ _ _ _ H) as Ht.
  destruct (string_dec c (i_socket i)) as [-> | Hne].
  - destruct w as [s data].
    step_cases H; cbn [w_store w_data i_socket] in *;
      try (rewrite data_of_put_same in *; cbn [d_roomId] in * );
      try (eapply touches_known; [exact Ht | now apply Hinv]).
    + eapply upsert_known; eassumption.
    + eapply add_known_mono; [eassumption | apply known_ensureRoom].
  - rewrite (step_data_other _ _ _ _ _ H Hne) in *.
    eapply touches_known; [exact Ht | now apply Hinv].
Qed.

Lemma reachable_rooms_recorded (w : world) : reachable w -> rooms_recorded w.
Proof.
  induction 1 as [|i w w' o _ IH Hstep].
  - intros c Hc. discriminate Hc.
  - eapply step_rooms_recorded; eassumption.
Qed.

(** A room id is recorded by a join or a subscription that went on to
    name a group after it, so it has a string form. *)
Lemma step_rooms_named (i : input) (w w' : world) (o : list action) :
  step i w = Ok tt w' o -> rooms_named w -> rooms_named w'.
Proof.
  intros H Hinv c Hc.
  destruct (string_dec c (i_socket i)) as [-> | Hne].
  - destruct w as [s data].
    step_cases H; cbn [w_store w_data i_socket] in *;
      try (rewrite data_of_put_same in *; cbn [d_roomId] in * );
      try (now apply Hinv);
      unfold has_string; now rewrite Hname.
  - rewrite (step_data_other _ _ _ _ _ H Hne) in *. now apply Hinv.
Qed.

Lemma reachable_rooms_named (w : world) : reachable w -> rooms_named w.
Proof.
  induction 1 as [|i w w' o _ IH Hstep].
  - intros c Hc. discriminate Hc.
  - eapply step_rooms_named; eassumption.
Qed.

(** ** Sequences of events *)

Lemma run_cons (i : input) (rest : list input) (w w' : world) (o : list action) :
  run (i :: rest) w = Ok tt w' o ->
  exists w1 o1 o2,
    step i w = Ok tt w1 o1 /\ run rest w1 = Ok tt w' o2 /\ o = (o1 ++ o2)%list.
Proof.
  simpl. unfold bind.
  destruct (step i w) as [e wx ox | [] w1 o1] eqn:E1; [discriminate|].
  destruct (run rest w1) as [e wx ox | [] w2 o2] eqn:E2; [discriminate|].
  intros [= <- <-]. now exists w1, o1, o2.
Qed.

(** The world a run leaves: that of its first event if the handler throws,
    else that of the rest of the run. *)
Lemma run_after_cons (i : input) (rest : list input) (w : world) :
  after (run (i :: rest) w)
  = match step i w with
    | Throw _ w1 _ => w1
    | Ok _ w1 _ => after (run rest w1)
    end.
Proof.
  simpl. unfold bind. destruct (step i w) as [e wx ox | [] w1 o1]; cbn [after];
    [reflexivity|].
  now destruct (run rest w1) as [e wx ox | [] w2 o2].
Qed.


(** A property that every admissible step keeps, whether it returns or
    throws, holds of the world a run of admissible steps leaves. *)
Lemma run_outcome_preserves (P : world -> Prop) (Q : input -> Prop) :
  (forall i w, Q i -> P w -> P (after (step i w))) ->
  forall inputs w, Forall Q inputs -> P w -> P (after (run inputs w)).
Proof.
  intros Hstep inputs. induction inputs as [|i rest IH]; intros w Hall HP.
  - exact HP.
  - inversion Hall as [|? ? Hi Hrest]; subst. rewrite run_after_cons.
    specialize (Hstep i w Hi HP).
    destruct (step i w) as [e wx ox | [] w1 o1]; cbn [after] in Hstep;
      [exact Hstep | now apply IH].
Qed.

Lemma run_nil (w w' : world) (o : list action) :
  run [] w = Ok tt w' o -> w' = w /\ o = [].
Proof. intros [= <- <-]. now split. Qed.

Lemma run_reachable (inputs : list input) (w w' : world) (o : list action) :
  reachable w -> run inputs w = Ok tt w' o -> reachable w'.
Proof.
  revert w o. induction inputs as [|i rest IH]; intros w o Hw H.
  - apply run_nil in H. destruct H as [-> _]. exact Hw.
  - apply run_cons in H. destruct H as (w1 & o1 & o2 & H1 & H2 & _).
    eapply IH; [|exact H2]. eapply reach_step; eassumption.
Qed.

(** * The derived view: who is listed, and in which order *)

Lemma participants_rooms (r : jsval) (s1 s2 : store) :
  rooms s1 = rooms s2 -> participants r s1 = participants r s2.
Proof. unfold participants. now intros ->. Qed.

(** C1.  For every room, [listStreamEnabledParticipants] returns exactly the
    participants of the room whose [streamAllowed] is [true], each rendered
    as { socketId, userId, displayName, lastSeen }: an entry is in the list
    if and only if it renders such a participant, the connection ids
    listed are those of such participants, each as often as it is a key,
    and the list is as long as there are such participants; a participant
    whose [streamAllowed] is absent or [false] gives no entry.  The list is
    the same whatever the admin sets hold. *)
Theorem C1_stream_enabled_exactly (r : jsval) (s : store) :
  exists l,
    listStreamEnabledParticipants r s = inr (l, ensureRoom r s)
    /\ (forall e,
          In e l <->
          exists sid p,
            In (sid, p) (participants r s) /\ streamAllowed p = Some true
            /\ e = mkEntry sid (read (userId p)) (read (displayName p))
                     (lastSeen p))
    /\ Permutation l (map render (filter consents (participants r s)))
    /\ Permutation (map e_socketId l)
         (map fst (filter consents (participants r s)))
    /\ List.length l = List.length (filter consents (participants r s))
    /\ (forall a,
          listStreamEnabledParticipants r (mkStore (rooms s) a)
          = inr (l, ensureRoom r (mkStore (rooms s) a))).
Proof.
  exists (stream_enabled (participants r s)).
  split; [apply listStreamEnabledParticipants_inr|].
  split; [intro e; apply stream_enabled_In|].
  split; [apply stream_enabled_perm|].
  split.
  { rewrite (Permutation_map e_socketId (stream_enabled_perm _)).
    rewrite map_map. apply Permutation_refl. }
  split.
  - rewrite (Permutation_length (stream_enabled_perm _)). apply length_map.
  - intro a. rewrite listStreamEnabledParticipants_inr.
    now rewrite (participants_rooms r (mkStore (rooms s) a) s).
Qed.

Lemma nth_error_before (l : list entry) (i j : nat) (a b : entry) :
  StronglySorted seen_no_later l ->
  nth_error l i = Some a -> nth_error l j = Some b -> (i < j)%nat ->
  e_lastSeen b <= e_lastSeen a.
Proof.
  intros Hs Ha Hb Hij.
  destruct (nth_error_split l i Ha) as (l1 & l2 & -> & Hlen).
  apply (sorted_split l1 l2 a b Hs).
  rewrite nth_error_app2 in Hb by lia.
  rewrite Hlen in Hb.
  destruct (j - i)%nat as [|k] eqn:E; [lia|].
  simpl in Hb. eapply nth_error_In. exact Hb.
Qed.

(** C5.  The list [listStreamEnabledParticipants] returns is in descending
    order of [lastSeen]: of two entries with [lastSeen] t1 < t2 the one
    with t2 stands at the smaller index.  Entries with the same [lastSeen]
    stand in the order in which the scan of the room's map meets them. *)
Theorem C5_sorted_by_lastSeen_desc (r : jsval) (s : store) :
  exists l,
    listStreamEnabledParticipants r s = inr (l, ensureRoom r s)
    /\ StronglySorted seen_no_later l
    /\ (forall i j a b,
          nth_error l i = Some a -> nth_error l j = Some b ->
          e_lastSeen a < e_lastSeen b -> (j < i)%nat)
    /\ (forall t,
          filter (fun e => e_lastSeen e =? t) l
          = filter (fun e => e_lastSeen e =? t)
              (map render (filter consents (participants r s)))).
Proof.
  exists (stream_enabled (participants r s)).
  split; [apply listStreamEnabledParticipants_inr|].
  assert (Hs : StronglySorted seen_no_later (stream_enabled (participants r s)))
    by apply array_sort_sorted.
  split; [exact Hs|]. split.
  - intros i j a b Ha Hb Hlt.
    destruct (Nat.lt_trichotomy i j) as [Hij | [-> | Hji]]; [| |exact Hji].
    + pose proof (nth_error_before _ _ _ _ _ Hs Ha Hb Hij). lia.
    + rewrite Ha in Hb. injection Hb as ->. lia.
  - intro t. unfold stream_enabled.
    now rewrite array_sort_stable, map_filter_project.
Qed.

(** * Consent toggles and repeated joins *)

Lemma run_cons_Ok (i : input) (rest : list input) (w w1 w2 : world)
    (o1 o2 : list action) :
  step i w = Ok tt w1 o1 -> run rest w1 = Ok tt w2 o2 ->
  run (i :: rest) w = Ok tt w2 (o1 ++ o2)%list.
Proof. intros H1 H2. simpl. unfold bind. now rewrite H1, H2. Qed.

(** Two writes of one connection in one room amount to one write of the
    record the second one computes. *)
Lemma upsert_twice (t1 t2 : Z) (r : jsval) (c : string) (pt1 pt2 : patch)
    (s s1 s2 : store) :
  upsertParticipant t1 r c pt1 s = inr s1 ->
  upsertParticipant t2 r c pt2 s1 = inr s2 ->
  s2 = mkStore
         (map_set same_value_zero r
            (map_set String.eqb c
               (spread (Some (spread (record_of c r s) pt1 t1)) pt2 t2)
               (participants r s))
            (rooms (ensureRoom r s)))
         (roomAdmins (ensureRoom r s)).
Proof.
  intros H1 H2.
  pose proof (upsert_known _ _ _ _ _ _ H1) as Hk.
  pose proof (upsert_record_same _ _ _ _ _ _ H1) as Hrec.
  pose proof (upsert_participants_same _ _ _ _ _ _ H1) as Hpart.
  rewrite upsertParticipant_inr in H2.
  rewrite Hrec, Hpart, (ensureRoom_known _ _ Hk) in H2.
  assert (E : s1 = mkStore
                     (map_set same_value_zero r
                        (map_set String.eqb c
                           (spread (record_of c r s) pt1 t1) (participants r s))
                        (rooms (ensureRoom r s)))
                     (roomAdmins (ensureRoom r s))).
  { rewrite upsertParticipant_inr in H1. congruence. }
  rewrite E in H2. cbn [rooms roomAdmins] in H2.
  rewrite (map_set_set _ String.eqb_eq),
    (map_set_set _ same_value_zero_eq) in H2.
  congruence.
Qed.

(** A consent patch overwrites everything an earlier consent patch wrote. *)
Lemma spread_consent_absorbs (prev : option participant) (u1 u2 : jsval)
    (a1 a2 : bool) (t1 t2 : Z) :
  spread (Some (spread prev (mkPatch (Some u1) None (Some a1)) t1))
    (mkPatch (Some u2) None (Some a2)) t2
  = spread prev (mkPatch (Some u2) None (Some a2)) t2.
Proof. now destruct prev. Qed.

Lemma consent_twice (t1 t2 : Z) (r : jsval) (c : string) (u1 u2 : jsval)
    (a1 a2 : bool) (s s1 s2 : store) :
  upsertParticipant t1 r c (mkPatch (Some u1) None (Some a1)) s = inr s1 ->
  upsertParticipant t2 r c (mkPatch (Some u2) None (Some a2)) s1 = inr s2 ->
  upsertParticipant t2 r c (mkPatch (Some u2) None (Some a2)) s = inr s2.
Proof.
  intros H1 H2. rewrite (upsert_twice _ _ _ _ _ _ _ _ _ H1 H2).
  rewrite spread_consent_absorbs. apply upsertParticipant_inr.
Qed.

(** The record a consent patch leaves, field by field. *)
Lemma consent_record (t : Z) (r : jsval) (c : string) (u : jsval) (a : bool)
    (s s' : store) :
  upsertParticipant t r c (mkPatch (Some u) None (Some a)) s = inr s' ->
  record_of c r s'
  = Some (mkParticipant (Some u)
            (match record_of c r s with
             | Some p => displayName p
             | None => None
             end)
            (Some a) t).
Proof.
  intro H. rewrite (upsert_record_same _ _ _ _ _ _ H).
  now destruct (record_of c r s).
Qed.

(** C6.  A connection sends [stream:consent] for one room with non-empty
    [roomId] and [userId] three times, with [allow] true, then false, then
    true.  The record it is left with in that room has [streamAllowed]
    [true].  When the room id has a string form all three events are handled
    to the end, and the record carries [true] after the first, [false] after
    the second and [true] after the third, each time with the [userId] and
    time of that event and the display name the connection had before; the
    world is then the one the third event alone would have left, so the
    first two toggles leave nothing behind.  (For a room id that has no
    string form the first event already throws, after writing its
    record.) *)
Theorem C6_consent_last_write_wins (c : string) (r : jsval)
    (o1 o2 o3 : list (string * jsval)) (t1 t2 t3 : Z) (w : world) :
  truthy r = true ->
  prop "roomId" o1 = r -> prop "roomId" o2 = r -> prop "roomId" o3 = r ->
  truthy (prop "userId" o1) = true ->
  truthy (prop "userId" o2) = true ->
  truthy (prop "userId" o3) = true ->
  truthy (prop "allow" o1) = true ->
  truthy (prop "allow" o2) = false ->
  truthy (prop "allow" o3) = true ->
  let e1 := mkInput c t1 (EvStreamConsent (PObj o1)) in
  let e2 := mkInput c t2 (EvStreamConsent (PObj o2)) in
  let e3 := mkInput c t3 (EvStreamConsent (PObj o3)) in
  let kept := match record_of c r (w_store w) with
              | Some p => displayName p
              | None => None
              end in
  (exists p, record_of c r (w_store (after (run [e1; e2; e3] w))) = Some p
             /\ streamAllowed p = Some true)
  /\ (forall name, to_string r = Some name ->
      exists w1 out1 w2 out2 w3 out3,
        step e1 w = Ok tt w1 out1
        /\ step e2 w1 = Ok tt w2 out2
        /\ step e3 w2 = Ok tt w3 out3
        /\ run [e1; e2; e3] w = Ok tt w3 (out1 ++ out2 ++ out3)%list
        /\ record_of c r (w_store w1)
           = Some (mkParticipant (Some (prop "userId" o1)) kept (Some true) t1)
        /\ record_of c r (w_store w2)
           = Some (mkParticipant (Some (prop "userId" o2)) kept (Some false) t2)
        /\ record_of c r (w_store w3)
           = Some (mkParticipant (Some (prop "userId" o3)) kept (Some true) t3)
        /\ step e3 w = Ok tt w3 out3)
  /\ (to_string r = None ->
      exists w1 out1,
        step e1 w = Throw TypeError w1 out1
        /\ run [e1; e2; e3] w = Throw TypeError w1 out1
        /\ record_of c r (w_store w1)
           = Some (mkParticipant (Some (prop "userId" o1)) kept (Some true) t1)).
Proof.
  intros Hr E1 E2 E3 U1 U2 U3 A1 A2 A3 e1 e2 e3 kept.
  assert (R1 : truthy (prop "roomId" o1) = true) by now rewrite E1.
  assert (R2 : truthy (prop "roomId" o2) = true) by now rewrite E2.
  assert (R3 : truthy (prop "roomId" o3) = true) by now rewrite E3.
  assert (Hsome : forall name, to_string r = Some name ->
      exists w1 out1 w2 out2 w3 out3,
        step e1 w = Ok tt w1 out1
        /\ step e2 w1 = Ok tt w2 out2
        /\ step e3 w2 = Ok tt w3 out3
        /\ run [e1; e2; e3] w = Ok tt w3 (out1 ++ out2 ++ out3)%list
        /\ record_of c r (w_store w1)
           = Some (mkParticipant (Some (prop "userId" o1)) kept (Some true) t1)
        /\ record_of c r (w_store w2)
           = Some (mkParticipant (Some (prop "userId" o2)) kept (Some false) t2)
        /\ record_of c r (w_store w3)
           = Some (mkParticipant (Some (prop "userId" o3)) kept (Some true) t3)
        /\ step e3 w = Ok tt w3 out3).
  { intros name Hname.
    assert (N1 : to_string (prop "roomId" o1) = Some name) by now rewrite E1.
    assert (N2 : to_string (prop "roomId" o2) = Some name) by now rewrite E2.
    assert (N3 : to_string (prop "roomId" o3) = Some name) by now rewrite E3.
    destruct (on_stream_consent_run c t1 w (PObj o1) o1 name eq_refl R1 U1 N1)
      as (s1 & Hs1 & Hrun1).
    destruct (on_stream_consent_run c t2 (mkWorld s1 (w_data w)) (PObj o2) o2
                name eq_refl R2 U2 N2) as (s2 & Hs2 & Hrun2).
    destruct (on_stream_consent_run c t3 (mkWorld s2 (w_data w)) (PObj o3) o3
                name eq_refl R3 U3 N3) as (s3 & Hs3 & Hrun3).
    destruct (on_stream_consent_run c t3 w (PObj o3) o3 name eq_refl R3 U3 N3)
      as (s3' & Hs3' & Hrun3').
    cbn [w_store w_data] in *.
    rewrite E1, A1 in Hs1. rewrite E2, A2 in Hs2.
    rewrite E3, A3 in Hs3, Hs3'.
    pose proof (consent_twice _ _ _ _ _ _ _ _ _ _ _ Hs1 Hs2) as H12.
    pose proof (consent_twice _ _ _ _ _ _ _ _ _ _ _ H12 Hs3) as H123.
    assert (s3' = s3) by congruence. subst s3'.
    rewrite E3, A3 in Hrun3, Hrun3'.
    do 6 eexists.
    split; [exact Hrun1|]. split; [exact Hrun2|]. split; [exact Hrun3|].
    split.
    { pose proof (run_cons_Ok e1 _ _ _ _ _ _ Hrun1
                    (run_cons_Ok e2 _ _ _ _ _ _ Hrun2
                       (run_cons_Ok e3 [] _ _ _ _ [] Hrun3 eq_refl))) as Hall.
      rewrite app_nil_r in Hall. exact Hall. }
    cbn [w_store].
    split; [exact (consent_record _ _ _ _ _ _ _ Hs1)|].
    split; [exact (consent_record _ _ _ _ _ _ _ H12)|].
    split; [exact (consent_record _ _ _ _ _ _ _ H123)|].
    exact Hrun3'. }
  assert (Hnone : to_string r = None ->
      exists w1 out1,
        step e1 w = Throw TypeError w1 out1
        /\ run [e1; e2; e3] w = Throw TypeError w1 out1
        /\ record_of c r (w_store w1)
           = Some (mkParticipant (Some (prop "userId" o1)) kept (Some true) t1)).
  { intro Hname.
    assert (N1 : to_string (prop "roomId" o1) = None) by now rewrite E1.
    destruct (on_stream_consent_crash c t1 w (PObj o1) o1 eq_refl R1 U1 N1)
      as (s1 & Hs1 & Hrun1).
    rewrite E1, A1 in Hs1.
    do 2 eexists. split; [exact Hrun1|]. split.
    - unfold run, bind.
      change (step e1 w) with (on_stream_consent c t1 (PObj o1) w).
      now rewrite Hrun1.
    - exact (consent_record _ _ _ _ _ _ _ Hs1). }
  split; [|split; [exact Hsome | exact Hnone]].
  destruct (to_string r) as [name|] eqn:Hname.
  - destruct (Hsome name eq_refl)
      as (w1 & out1 & w2 & out2 & w3 & out3 & _ & _ & _ & Hrun & _ & _ & H3 & _).
    rewrite Hrun. cbn [after]. eexists. split; [exact H3|]. reflexivity.
  - destruct (Hnone eq_refl) as (w1 & out1 & _ & Hrun & H1).
    rewrite Hrun. cbn [after]. eexists. split; [exact H1|]. reflexivity.
Qed.

Lemma C6_consent_last_write_wins_witness :
  let o (a : bool) := [("roomId", JStr "r1"); ("userId", JStr "u1");
                       ("allow", JBool a)] in
  let e1 := mkInput "A" 1 (EvStreamConsent (PObj (o true))) in
  let e2 := mkInput "A" 2 (EvStreamConsent (PObj (o false))) in
  let e3 := mkInput "A" 3 (EvStreamConsent (PObj (o true))) in
  (exists p,
      record_of "A" (JStr "r1")
        (w_store (after (run [e1; e2; e3] initial_world))) = Some p
      /\ streamAllowed p = Some true)
  /\ (forall name, to_string (JStr "r1") = Some name ->
      exists w1 out1 w2 out2 w3 out3,
        step e1 initial_world = Ok tt w1 out1
        /\ step e2 w1 = Ok tt w2 out2
        /\ step e3 w2 = Ok tt w3 out3
        /\ run [e1; e2; e3] initial_world
           = Ok tt w3 (out1 ++ out2 ++ out3)%list
        /\ record_of "A" (JStr "r1") (w_store w1)
           = Some (mkParticipant (Some (JStr "u1")) None (Some true) 1)
        /\ record_of "A" (JStr "r1") (w_store w2)
           = Some (mkParticipant (Some (JStr "u1")) None (Some false) 2)
        /\ record_of "A" (JStr "r1") (w_store w3)
           = Some (mkParticipant (Some (JStr "u1")) None (Some true) 3)
        /\ step e3 initial_world = Ok tt w3 out3)
  /\ (to_string (JStr "r1") = None ->
      exists w1 out1,
        step e1 initial_world = Throw TypeError w1 out1
        /\ run [e1; e2; e3] initial_world = Throw TypeError w1 out1
        /\ record_of "A" (JStr "r1") (w_store w1)
           = Some (mkParticipant (Some (JStr "u1")) None (Some true) 1)).
Proof.
  intros o e1 e2 e3.
  apply (C6_consent_last_write_wins "A" (JStr "r1") (o true) (o false) (o true)
           1 2 3 initial_world); reflexivity.
Defined.

Lemma map_set_keys_has {K V : Type} (keq : K -> K -> bool) (k : K) (v : V)
    (m : list (K * V)) :
  map_has keq k m = true -> map fst (map_set keq k v m) = map fst m.
Proof.
  unfold map_has. induction m as [|[k' v'] m IH]; [discriminate|].
  unfold map_set; fold (@map_set K V keq). simpl.
  destruct (keq k k'); simpl; [reflexivity|].
  intro H. now rewrite IH.
Qed.

(** C7.  A connection that joins a room and then joins the same room again
    has one record there, not two: the room has as many participants after
    the second join as after the first, under the same keys in the same
    order.  When the room id has a string form both joins are handled to
    the end and the second writes over the record of the first, in its
    place: it sets [userId] and [displayName] anew and keeps
    [streamAllowed].  (For a room id that has no string form both joins
    throw before they write a record, and the room's participants stay as
    they were.) *)
Theorem C7_rejoin_overwrites (c : string) (r : jsval)
    (o1 o2 : list (string * jsval)) (t1 t2 : Z) (w : world) :
  truthy r = true ->
  prop "roomId" o1 = r -> prop "roomId" o2 = r ->
  truthy (prop "userId" o1) = true ->
  truthy (prop "userId" o2) = true ->
  let j1 := mkInput c t1 (EvJoin (PObj o1)) in
  let j2 := mkInput c t2 (EvJoin (PObj o2)) in
  let w1 := after (step j1 w) in
  let w2 := after (step j2 w1) in
  participant_count r (w_store w2) = participant_count r (w_store w1)
  /\ map fst (participants r (w_store w2))
     = map fst (participants r (w_store w1))
  /\ (forall name, to_string r = Some name ->
      exists out1 out2 p1,
        step j1 w = Ok tt w1 out1
        /\ step j2 w1 = Ok tt w2 out2
        /\ record_of c r (w_store w1) = Some p1
        /\ record_of c r (w_store w2)
           = Some (mkParticipant (Some (prop "userId" o2))
                     (Some (js_or (prop "displayName" o2) (prop "userId" o2)))
                     (streamAllowed p1) t2))
  /\ (to_string r = None ->
      step j1 w = Throw TypeError w1 []
      /\ step j2 w1 = Throw TypeError w2 []
      /\ participants r (w_store w2) = participants r (w_store w)).
Proof.
  intros Hr E1 E2 U1 U2 j1 j2 w1 w2.
  assert (R1 : truthy (prop "roomId" o1) = true) by now rewrite E1.
  assert (R2 : truthy (prop "roomId" o2) = true) by now rewrite E2.
  assert (Hsome : forall name, to_string r = Some name ->
      map fst (participants r (w_store w2))
      = map fst (participants r (w_store w1))
      /\ exists out1 out2 p1,
        step j1 w = Ok tt w1 out1
        /\ step j2 w1 = Ok tt w2 out2
        /\ record_of c r (w_store w1) = Some p1
        /\ record_of c r (w_store w2)
           = Some (mkParticipant (Some (prop "userId" o2))
                     (Some (js_or (prop "displayName" o2) (prop "userId" o2)))
                     (streamAllowed p1) t2)).
  { intros name Hname.
    assert (N1 : to_string (prop "roomId" o1) = Some name) by now rewrite E1.
    assert (N2 : to_string (prop "roomId" o2) = Some name) by now rewrite E2.
    destruct (on_join_run c t1 w (PObj o1) o1 name eq_refl R1 U1 N1)
      as (s1 & Hs1 & Hrun1).
    assert (Hw1 : step j1 w = Ok tt w1 (sent (step j1 w))).
    { unfold w1. change (step j1 w) with (on_join c t1 (PObj o1) w).
      now rewrite Hrun1. }
    assert (Ew1 : w_store w1 = s1).
    { unfold w1. change (step j1 w) with (on_join c t1 (PObj o1) w).
      now rewrite Hrun1. }
    destruct (on_join_run c t2 w1 (PObj o2) o2 name eq_refl R2 U2 N2)
      as (s2 & Hs2 & Hrun2).
    assert (Hw2 : step j2 w1 = Ok tt w2 (sent (step j2 w1))).
    { unfold w2. change (step j2 w1) with (on_join c t2 (PObj o2) w1).
      now rewrite Hrun2. }
    assert (Ew2 : w_store w2 = s2).
    { unfold w2. change (step j2 w1) with (on_join c t2 (PObj o2) w1).
      now rewrite Hrun2. }
    rewrite Ew1 in Hs2.
    rewrite E1 in Hs1. rewrite E2 in Hs2.
    pose proof (upsert_record_same _ _ _ _ _ _ Hs1) as Hrec1.
    pose proof (upsert_record_same _ _ _ _ _ _ Hs2) as Hrec2.
    pose proof (upsert_participants_same _ _ _ _ _ _ Hs2) as Hpart.
    rewrite Ew2, Ew1.
    split.
    { rewrite Hpart. apply map_set_keys_has.
      unfold map_has. unfold record_of in Hrec1. now rewrite Hrec1. }
    do 3 eexists.
    split; [exact Hw1|]. split; [exact Hw2|]. split; [exact Hrec1|].
    rewrite Hrec2, Hrec1. reflexivity. }
  assert (Hnone : to_string r = None ->
      step j1 w = Throw TypeError w1 []
      /\ step j2 w1 = Throw TypeError w2 []
      /\ participants r (w_store w2) = participants r (w_store w)).
  { intro Hname.
    assert (N1 : to_string (prop "roomId" o1) = None) by now rewrite E1.
    assert (N2 : to_string (prop "roomId" o2) = None) by now rewrite E2.
    pose proof (on_join_crash c t1 w (PObj o1) o1 eq_refl R1 U1 N1) as Hrun1.
    pose proof (on_join_crash c t2 w1 (PObj o2) o2 eq_refl R2 U2 N2) as Hrun2.
    assert (Ew1 : w_store w1 = ensureRoom (prop "roomId" o1) (w_store w)).
    { unfold w1. change (step j1 w) with (on_join c t1 (PObj o1) w).
      now rewrite Hrun1. }
    assert (Ew2 : w_store w2 = ensureRoom (prop "roomId" o2) (w_store w1)).
    { unfold w2. change (step j2 w1) with (on_join c t2 (PObj o2) w1).
      now rewrite Hrun2. }
    split; [|split].
    - unfold w1. change (step j1 w) with (on_join c t1 (PObj o1) w).
      now rewrite Hrun1.
    - unfold w2. change (step j2 w1) with (on_join c t2 (PObj o2) w1).
      now rewrite Hrun2.
    - now rewrite Ew2, Ew1, !participants_ensureRoom. }
  assert (Hkeys : map fst (participants r (w_store w2))
                  = map fst (participants r (w_store w1))).
  { destruct (to_string r) as [name|] eqn:Hname.
    - exact (proj1 (Hsome name eq_refl)).
    - destruct (Hnone eq_refl) as (H1 & H2 & _).
      assert (Ew2 : w_store w2 = ensureRoom (prop "roomId" o2) (w_store w1)).
      { assert (N2 : to_string (prop "roomId" o2) = None) by now rewrite E2.
        pose proof (on_join_crash c t2 w1 (PObj o2) o2 eq_refl R2 U2 N2)
          as Hrun2.
        unfold w2. change (step j2 w1) with (on_join c t2 (PObj o2) w1).
        now rewrite Hrun2. }
      now rewrite Ew2, participants_ensureRoom. }
  split; [|split; [exact Hkeys|split; [|exact Hnone]]].
  - unfold participant_count.
    rewrite <- (length_map fst (participants r (w_store w2))), Hkeys.
    apply length_map.
  - intros name Hname. exact (proj2 (Hsome name Hname)).
Qed.

Lemma C7_rejoin_overwrites_witness :
  let j1 := mkInput "A" 1
              (EvJoin (PObj [("roomId", JStr "r1"); ("userId", JStr "u1")])) in
  let j2 := mkInput "A" 2
              (EvJoin (PObj [("roomId", JStr "r1"); ("userId", JStr "u2")])) in
  let w1 := after (step j1 initial_world) in
  let w2 := after (step j2 w1) in
  participant_count (JStr "r1") (w_store w2)
  = participant_count (JStr "r1") (w_store w1)
  /\ map fst (participants (JStr "r1") (w_store w2))
     = map fst (participants (JStr "r1") (w_store w1))
  /\ (forall name, to_string (JStr "r1") = Some name ->
      exists out1 out2 p1,
        step j1 initial_world = Ok tt w1 out1
        /\ step j2 w1 = Ok tt w2 out2
        /\ record_of "A" (JStr "r1") (w_store w1) = Some p1
        /\ record_of "A" (JStr "r1") (w_store w2)
           = Some (mkParticipant (Some (JStr "u2")) (Some (JStr "u2"))
                     (streamAllowed p1) 2))
  /\ (to_string (JStr "r1") = None ->
      step j1 initial_world = Throw TypeError w1 []
      /\ step j2 w1 = Throw TypeError w2 []
      /\ participants (JStr "r1") (w_store w2)
         = participants (JStr "r1") (w_store initial_world)).
Proof.
  intros j1 j2 w1 w2.
  apply (C7_rejoin_overwrites "A" (JStr "r1")
           [("roomId", JStr "r1"); ("userId", JStr "u1")]
           [("roomId", JStr "r1"); ("userId", JStr "u2")] 1 2 initial_world);
    reflexivity.
Defined.

(** * The relay *)




(** * Admin registration *)

Lemma closes_false (c : string) (i : input) :
  closes c i = false -> is_disconnect (i_event i) = true -> i_socket i <> c.
Proof.
  unfold closes. intros H Hd Heq. rewrite Hd, Heq, String.eqb_refl in H.
  discriminate.
Qed.

(** An admin registration outlasts every event that is not the disconnect
    of its connection, whether the handler returns or throws. *)
Lemma outcome_keeps_admin (c : string) (r : jsval) (i : input) (w : world) :
  closes c i = false ->
  In c (admins r (w_store w)) ->
  In c (admins r (w_store (after (step i w)))).
Proof.
  intros Hc Hin.
  eapply touches_admins; [exact (outcome_touches i w) | | exact Hin].
  now apply closes_false.
Qed.

Lemma step_keeps_admin (c : string) (r : jsval) (i : input) (w w' : world)
    (o : list action) :
  In c (admins r (w_store w)) -> closes c i = false ->
  step i w = Ok tt w' o -> In c (admins r (w_store w')).
Proof.
  intros Hin Hc H.
  eapply touches_admins; [exact (step_touches _ _ _ _ H) | | exact Hin].
  now apply closes_false.
Qed.

Lemma run_keeps_admin (c : string) (r : jsval) (inputs : list input)
    (w w' : world) (o : list action) :
  In c (admins r (w_store w)) -> Forall (fun i => closes c i = false) inputs ->
  run inputs w = Ok tt w' o -> In c (admins r (w_store w')).
Proof.
  revert w o. induction inputs as [|i rest IH]; intros w o Hin Hall H.
  - apply run_nil in H. destruct H as [-> _]. exact Hin.
  - apply run_cons in H. destruct H as (w1 & o1 & o2 & H1 & H2 & _).
    inversion Hall as [|? ? Hi Hrest]; subst.
    eapply IH; [|exact Hrest|exact H2].
    eapply step_keeps_admin; eassumption.
Qed.

(** C4.  [admin:subscribe] with a non-empty [roomId] puts the connection
    into the room's admin set, and there it stays through every later
    event, from whichever connection, that is not the disconnect of that
    same connection: joins, heartbeats, consent toggles, relays, further
    subscriptions and the disconnects of others all keep it, whether their
    handlers return or throw.  There is no event that unsubscribes.  The
    subscription itself is handled to the end when the room id has a string
    form; the connection is in the admin set either way, since the handler
    adds it before it names a group. *)
Theorem C4_admin_until_own_disconnect (c : string) (now : Z) (arg : payload)
    (o : list (string * jsval)) (w : world) :
  destructure arg = inr o ->
  truthy (prop "roomId" o) = true ->
  let w1 := after (step (mkInput c now (EvAdminSubscribe arg)) w) in
  In c (admins (prop "roomId" o) (w_store w1))
  /\ (forall name, to_string (prop "roomId" o) = Some name ->
      exists out1, step (mkInput c now (EvAdminSubscribe arg)) w
                   = Ok tt w1 out1)
  /\ (forall i w0,
        closes c i = false ->
        In c (admins (prop "roomId" o) (w_store w0)) ->
        In c (admins (prop "roomId" o) (w_store (after (step i w0)))))
  /\ (forall later,
        Forall (fun i => closes c i = false) later ->
        In c (admins (prop "roomId" o) (w_store (after (run later w1))))).
Proof.
  intros Hd Hr w1.
  assert (Hin : In c (admins (prop "roomId" o) (w_store w1))).
  { unfold w1.
    change (step (mkInput c now (EvAdminSubscribe arg)) w)
      with (on_admin_subscribe c arg w).
    destruct (to_string (prop "roomId" o)) as [name|] eqn:Hname.
    - destruct (on_admin_subscribe_run c w arg o name Hd Hr Hname)
        as (s' & Hadd & Hrun).
      rewrite Hrun. cbn [after w_store].
      apply (add_admins_same _ _ _ _ Hadd). now left.
    - destruct (on_admin_subscribe_crash c w arg o Hd Hr Hname)
        as (s' & Hadd & Hrun).
      rewrite Hrun. cbn [after w_store].
      apply (add_admins_same _ _ _ _ Hadd). now left. }
  split; [exact Hin|]. split; [|split].
  - intros name Hname. unfold w1.
    change (step (mkInput c now (EvAdminSubscribe arg)) w)
      with (on_admin_subscribe c arg w).
    destruct (on_admin_subscribe_run c w arg o name Hd Hr Hname)
      as (s' & Hadd & Hrun).
    rewrite Hrun. cbn [after]. eexists. reflexivity.
  - intros i w0 Hc H0. now apply outcome_keeps_admin.
  - intros later Hall.
    apply (run_outcome_preserves
             (fun w => In c (admins (prop "roomId" o) (w_store w)))
             (fun i => closes c i = false)); [|exact Hall|exact Hin].
    intros i w0 Hc H0. now apply outcome_keeps_admin.
Qed.

Lemma C4_admin_until_own_disconnect_witness :
  let w1 := after (step (mkInput "B" 1
                           (EvAdminSubscribe (PObj [("roomId", JStr "r1")])))
                     initial_world) in
  In "B" (admins (JStr "r1") (w_store w1))
  /\ (forall name, to_string (JStr "r1") = Some name ->
      exists out1,
        step (mkInput "B" 1 (EvAdminSubscribe (PObj [("roomId", JStr "r1")])))
          initial_world = Ok tt w1 out1)
  /\ (forall i w0,
        closes "B" i = false ->
        In "B" (admins (JStr "r1") (w_store w0)) ->
        In "B" (admins (JStr "r1") (w_store (after (step i w0)))))
  /\ (forall later,
        Forall (fun i => closes "B" i = false) later ->
        In "B" (admins (JStr "r1") (w_store (after (run later w1))))).
Proof.
  intro w1.
  apply (C4_admin_until_own_disconnect "B" 1 (PObj [("roomId", JStr "r1")])
           [("roomId", JStr "r1")] initial_world); reflexivity.
Defined.

(** * Disconnect *)





Lemma outcome_record_other (c : string) (r : jsval) (i : input) (w : world) :
  i_socket i <> c ->
  record_of c r (w_store (after (step i w))) = record_of c r (w_store w).
Proof.
  intro Hc.
  apply (touches_record_other _ c _ r _ _ (outcome_touches i w)). congruence.
Qed.

Lemma run_outcome_record_other (c : string) (r : jsval) (inputs : list input)
    (w : world) :
  Forall (fun i => i_socket i <> c) inputs ->
  record_of c r (w_store (after (run inputs w))) = record_of c r (w_store w).
Proof.
  intro Hall.
  apply (run_outcome_preserves
           (fun w' => record_of c r (w_store w') = record_of c r (w_store w))
           (fun i => i_socket i <> c)); [|exact Hall|reflexivity].
  intros i w0 Hi H0. now rewrite outcome_record_other.
Qed.






(** ** A connection that only ever sent [stream:consent] *)

Lemma touches_record_stays (c0 c : string) (closing : bool) (r : jsval)
    (s s' : store) :
  touches c0 closing s s' ->
  (closing = true -> c0 <> c) ->
  record_of c r s <> None -> record_of c r s' <> None.
Proof.
  induction 1 as [ | closing r0 s | closing now r0 pt s s' Hup
                 | closing r0 s s' Hadd | r0 s s' Hdel | r0 s
                 | closing s1 s2 s3 _ IH1 _ IH2 ]; intros Hc Hrec.
  - exact Hrec.
  - unfold record_of. now rewrite participants_ensureRoom.
  - destruct (jsval_eq_dec r0 r) as [-> | Hr].
    + destruct (string_dec c c0) as [-> | Hne].
      * now rewrite (upsert_record_same _ _ _ _ _ _ Hup).
      * now rewrite (upsert_record_other _ _ _ _ _ _ Hup c r Hne).
    + now rewrite (upsert_record_other_room _ _ _ _ _ _ Hup c r Hr).
  - unfold record_of, participants in *. now rewrite (add_rooms _ _ _ _ Hadd).
  - unfold record_of, participants in *.
    now rewrite (delete_rooms _ _ _ _ Hdel).
  - rewrite remove_record_other; [exact Hrec|].
    intros ->. now apply Hc.
  - auto.
Qed.

(** Only [join] and [admin:subscribe] write to [socket.data]. *)
Lemma outcome_data_quiet (i : input) (w : world) :
  names_room (i_event i) = false -> w_data (after (step i w)) = w_data w.
Proof.
  outcome_cases i w; cbn [w_data names_room] in *; intro Hq;
    try reflexivity; discriminate.
Qed.

Lemma run_outcome_unnamed (c : string) (r : jsval) (inputs : list input)
    (w : world) :
  Forall (fun i => i_socket i = c ->
                   names_room (i_event i) = false
                   /\ is_disconnect (i_event i) = false) inputs ->
  truthy (d_roomId (data_of c w)) = false ->
  record_of c r (w_store w) <> None ->
  truthy (d_roomId (data_of c (after (run inputs w)))) = false
  /\ record_of c r (w_store (after (run inputs w))) <> None.
Proof.
  intros Hall Hd Hrec.
  apply (run_outcome_preserves
           (fun w' => truthy (d_roomId (data_of c w')) = false
                      /\ record_of c r (w_store w') <> None)
           (fun i => i_socket i = c ->
                     names_room (i_event i) = false
                     /\ is_disconnect (i_event i) = false));
    [|exact Hall|now split].
  intros i w0 Hi [Hd0 Hrec0]. split.
  - destruct (string_dec (i_socket i) c) as [Heq | Hne].
    + destruct (Hi Heq) as [Hq _].
      unfold data_of in *. now rewrite (outcome_data_quiet _ _ Hq).
    + rewrite outcome_data_other; [exact Hd0 | congruence].
  - eapply touches_record_stays;
      [exact (outcome_touches i w0) | | exact Hrec0].
    intros Hclosing Heq. destruct (Hi Heq) as [_ Hnd]. congruence.
Qed.

(** C10.  [stream:consent] writes a record for the connection under the
    room id of its payload and leaves [socket.data] as it was; it is
    handled to the end when the room id has a string form, and has written
    the record either way.  So a connection that has no room id recorded,
    and goes on without [join] or [admin:subscribe], still has none when it
    disconnects: the disconnect handler then changes nothing and sends
    nothing, and the record the consent created stays in the store through
    whatever other connections do afterwards. *)
Theorem C10_consent_only_record_persists (c : string) (now : Z) (arg : payload)
    (o : list (string * jsval)) (w0 : world) :
  truthy (d_roomId (data_of c w0)) = false ->
  destructure arg = inr o ->
  truthy (prop "roomId" o) = true ->
  truthy (prop "userId" o) = true ->
  let w1 := after (step (mkInput c now (EvStreamConsent arg)) w0) in
  w_data w1 = w_data w0
  /\ (exists p, record_of c (prop "roomId" o) (w_store w1) = Some p
                /\ streamAllowed p = Some (truthy (prop "allow" o)))
  /\ (forall name, to_string (prop "roomId" o) = Some name ->
      exists o1, step (mkInput c now (EvStreamConsent arg)) w0 = Ok tt w1 o1)
  /\ (forall more,
        Forall (fun i => i_socket i = c ->
                         names_room (i_event i) = false
                         /\ is_disconnect (i_event i) = false) more ->
        let w2 := after (run more w1) in
        (forall t, step (mkInput c t EvDisconnect) w2 = Ok tt w2 [])
        /\ exists p2,
             record_of c (prop "roomId" o) (w_store w2) = Some p2
             /\ forall later,
                  Forall (fun i => i_socket i <> c) later ->
                  record_of c (prop "roomId" o)
                    (w_store (after (run later w2))) = Some p2).
Proof.
  intros Hd0 Hd Hr Hu w1.
  assert (Hw1 : exists s1,
             upsertParticipant now (prop "roomId" o) c
               (mkPatch (Some (prop "userId" o)) None
                  (Some (truthy (prop "allow" o)))) (w_store w0) = inr s1
             /\ w1 = mkWorld s1 (w_data w0)).
  { unfold w1. change (step (mkInput c now (EvStreamConsent arg)) w0)
      with (on_stream_consent c now arg w0).
    destruct (to_string (prop "roomId" o)) as [name|] eqn:Hname.
    - destruct (on_stream_consent_run c now w0 arg o name Hd Hr Hu Hname)
        as (s1 & Hs1 & Hrun).
      exists s1. split; [exact Hs1 | now rewrite Hrun].
    - destruct (on_stream_consent_crash c now w0 arg o Hd Hr Hu Hname)
        as (s1 & Hs1 & Hrun).
      exists s1. split; [exact Hs1 | now rewrite Hrun]. }
  destruct Hw1 as (s1 & Hs1 & Ew1).
  pose proof (upsert_record_same _ _ _ _ _ _ Hs1) as Hrec.
  split; [now rewrite Ew1|].
  split; [rewrite Ew1; eexists; split; [exact Hrec | reflexivity]|].
  split.
  - intros name Hname. unfold w1.
    change (step (mkInput c now (EvStreamConsent arg)) w0)
      with (on_stream_consent c now arg w0).
    destruct (on_stream_consent_run c now w0 arg o name Hd Hr Hu Hname)
      as (s1' & Hs1' & Hrun).
    rewrite Hrun. cbn [after]. eexists. reflexivity.
  - intros more Hall w2.
    destruct (run_outcome_unnamed c (prop "roomId" o) more w1 Hall)
      as [Hd2 Hrec2].
    + now rewrite Ew1.
    + rewrite Ew1. cbn [w_store]. now rewrite Hrec.
    + fold w2 in Hd2, Hrec2. split.
      * intro t. unfold step. cbn [i_event i_socket].
        now apply on_disconnect_ignored.
      * destruct (record_of c (prop "roomId" o) (w_store w2)) as [p2|] eqn:E;
          [|contradiction].
        exists p2. split; [reflexivity|].
        intros later Hlater.
        now rewrite run_outcome_record_other.
Qed.

Lemma C10_consent_only_record_persists_witness :
  let consent := mkInput "A" 1
                   (EvStreamConsent
                      (PObj [("roomId", JStr "r2"); ("userId", JStr "u1");
                             ("allow", JBool true)])) in
  let w1 := after (step consent initial_world) in
  w_data w1 = w_data initial_world
  /\ (exists p, record_of "A" (JStr "r2") (w_store w1) = Some p
                /\ streamAllowed p = Some true)
  /\ (forall name, to_string (JStr "r2") = Some name ->
      exists o1, step consent initial_world = Ok tt w1 o1)
  /\ (forall more,
        Forall (fun i => i_socket i = "A" ->
                         names_room (i_event i) = false
                         /\ is_disconnect (i_event i) = false) more ->
        let w2 := after (run more w1) in
        (forall t, step (mkInput "A" t EvDisconnect) w2 = Ok tt w2 [])
        /\ exists p2,
             record_of "A" (JStr "r2") (w_store w2) = Some p2
             /\ forall later,
                  Forall (fun i => i_socket i <> "A") later ->
                  record_of "A" (JStr "r2")
                    (w_store (after (run later w2))) = Some p2).
Proof.
  intros consent w1.
  apply (C10_consent_only_record_persists "A" 1
           (PObj [("roomId", JStr "r2"); ("userId", JStr "u1");
                  ("allow", JBool true)])
           [("roomId", JStr "r2"); ("userId", JStr "u1");
            ("allow", JBool true)] initial_world); reflexivity.
Defined.

(** * Queries that create rooms *)

Lemma map_has_set_existing {K V : Type} (keq : K -> K -> bool)
    (keq_eq : forall a b, keq a b = true <-> a = b)
    (k k' : K) (v : V) (m : list (K * V)) :
  map_has keq k m = true -> map_has keq k' (map_set keq k v m) = map_has keq k' m.
Proof.
  intro H. destruct (keq k k') eqn:E.
  - apply keq_eq in E. subst k'. rewrite H. now apply map_has_set_same.
  - apply map_has_set_other; [exact keq_eq|].
    intros ->. rewrite (keq_refl keq keq_eq) in E. discriminate.
Qed.

Lemma known_rooms_get (r : jsval) (s : store) :
  known r s = true ->
  map_get same_value_zero r (rooms s) = Some (participants r s).
Proof.
  unfold known, participants, map_has. intro H.
  apply andb_true_iff in H. destruct H as [H _].
  now destruct (map_get same_value_zero r (rooms s)).
Qed.

Lemma present_removeParticipant (r r' : jsval) (c : string) (s : store) :
  present r' (removeParticipant r c s) = present r' s.
Proof.
  unfold removeParticipant, present.
  destruct (map_get same_value_zero r (rooms s)) eqn:E; [|reflexivity].
  cbn [rooms roomAdmins].
  rewrite (map_has_set_existing _ same_value_zero_eq); [reflexivity|].
  unfold map_has. now rewrite E.
Qed.

Lemma present_roomAdmins_delete (r r' : jsval) (c : string) (s s' : store) :
  known r s = true -> roomAdmins_delete r c s = inr s' ->
  present r' s' = present r' s.
Proof.
  intros Hk H. rewrite (roomAdmins_delete_inr _ _ _ Hk) in H.
  injection H as <-. unfold present. cbn [rooms roomAdmins].
  rewrite (map_has_set_existing _ same_value_zero_eq); [reflexivity|].
  unfold known in Hk. apply andb_true_iff in Hk. tauto.
Qed.

(** When a disconnect is handled, the room recorded for the connection is
    already in the store: the handler adds no room. *)
Lemma disconnect_adds_no_room (i : input) (w w' : world) (o : list action)
    (r : jsval) :
  rooms_recorded w -> i_event i = EvDisconnect ->
  step i w = Ok tt w' o -> present r (w_store w') = present r (w_store w).
Proof.
  intros Hinv Hev H.
  step_cases H; try discriminate Hev; cbn [w_store];
    try reflexivity; pose proof (Hinv sock Hroom) as Hk.
  - rewrite ensureRoom_known by now apply remove_known_mono.
    apply present_removeParticipant.
  - rewrite (ensureRoom_known _ _ Hk) in Hst.
    exact (present_roomAdmins_delete _ _ _ _ _ Hk Hst).
  - now rewrite ensureRoom_known.
Qed.

(** C9, as stated, fails in its example.  In every state the server can
    reach, the room id a connection recorded is a room the store has, so
    the broadcast after a disconnect queries a room that is there and
    creates none. *)
Lemma C9_counterexample : ~ disconnect_broadcast_creates_room.
Proof.
  intros (w & w' & c & t & o & r & Hreach & Hstep & Hbefore & Hafter).
  rewrite (disconnect_adds_no_room (mkInput c t EvDisconnect) w w' o r
             (reachable_rooms_recorded w Hreach) eq_refl Hstep) in Hafter.
  congruence.
Qed.

(** C9, amended.  [listAdmins] and [listStreamEnabledParticipants] are not
    read-only on a room id the store does not have: each returns the empty
    list and leaves the store with an empty participant map and an empty
    admin set for that id.  The handlers, though, query only rooms that are
    there; in particular the broadcast after a disconnect, in any state the
    server can reach, adds no room. *)
Theorem C9_query_creates_room (r : jsval) (s : store) :
  present r s = false ->
  listAdmins r s = inr ([], ensureRoom r s)
  /\ listStreamEnabledParticipants r s = inr ([], ensureRoom r s)
  /\ map_get same_value_zero r (rooms (ensureRoom r s)) = Some []
  /\ map_get same_value_zero r (roomAdmins (ensureRoom r s)) = Some []
  /\ present r (ensureRoom r s) = true
  /\ ensureRoom r s <> s
  /\ (forall w w' c t o r',
        reachable w -> step (mkInput c t EvDisconnect) w = Ok tt w' o ->
        present r' (w_store w') = present r' (w_store w)).
Proof.
  intro Hp. unfold present in Hp. apply orb_false_iff in Hp.
  destruct Hp as [Hrooms Hadmins].
  assert (Hpart : participants r s = []).
  { unfold participants, map_has in *.
    now destruct (map_get same_value_zero r (rooms s)). }
  assert (Hadm : admins r s = []).
  { unfold admins, map_has in *.
    now destruct (map_get same_value_zero r (roomAdmins s)). }
  assert (Hnew : present r (ensureRoom r s) = true).
  { pose proof (known_ensureRoom r s) as Hk. unfold known in Hk.
    apply andb_true_iff in Hk. unfold present. destruct Hk as [-> _].
    reflexivity. }
  split; [rewrite listAdmins_inr; now rewrite Hadm|].
  split; [rewrite listStreamEnabledParticipants_inr; now rewrite Hpart|].
  split; [rewrite rooms_get_ensureRoom; now rewrite Hpart|].
  split; [rewrite roomAdmins_get_ensureRoom; now rewrite Hadm|].
  split; [exact Hnew|]. split.
  - intro Heq. rewrite Heq in Hnew. unfold present in Hnew.
    rewrite Hrooms, Hadmins in Hnew. discriminate.
  - intros w w' c t o r' Hreach Hstep.
    exact (disconnect_adds_no_room (mkInput c t EvDisconnect) w w' o r'
             (reachable_rooms_recorded w Hreach) eq_refl Hstep).
Qed.

Lemma C9_query_creates_room_witness :
  listAdmins (JStr "r9") empty_store
  = inr ([], ensureRoom (JStr "r9") empty_store)
  /\ listStreamEnabledParticipants (JStr "r9") empty_store
     = inr ([], ensureRoom (JStr "r9") empty_store)
  /\ map_get same_value_zero (JStr "r9")
       (rooms (ensureRoom (JStr "r9") empty_store)) = Some []
  /\ map_get same_value_zero (JStr "r9")
       (roomAdmins (ensureRoom (JStr "r9") empty_store)) = Some []
  /\ present (JStr "r9") (ensureRoom (JStr "r9") empty_store) = true
  /\ ensureRoom (JStr "r9") empty_store <> empty_store
  /\ (forall w w' c t o r',
        reachable w -> step (mkInput c t EvDisconnect) w = Ok tt w' o ->
        present r' (w_store w') = present r' (w_store w)).
Proof.
  apply (C9_query_creates_room (JStr "r9") empty_store). reflexivity.
Defined.

(** * Payloads that cannot be destructured *)

(** C3, at the failing input.  An event sent without an argument, or with
    [null], reaches a handler whose parameter list destructures it: the
    handler throws a [TypeError] instead of ignoring the event.  This holds
    for [join], [stream:consent], [admin:subscribe] and the three relay
    events, in every state. *)
Theorem C3_nullish_payload_throws (c : string) (now : Z) (w : world) :
  step (mkInput c now (EvJoin (PVal JUndefined))) w = Throw TypeError w []
  /\ step (mkInput c now (EvJoin (PVal JNull))) w = Throw TypeError w []
  /\ step (mkInput c now (EvStreamConsent (PVal JUndefined))) w
     = Throw TypeError w []
  /\ step (mkInput c now (EvAdminSubscribe (PVal JUndefined))) w
     = Throw TypeError w []
  /\ step (mkInput c now (EvWebrtcOffer (PVal JUndefined))) w
     = Throw TypeError w []
  /\ step (mkInput c now (EvWebrtcAnswer (PVal JUndefined))) w
     = Throw TypeError w []
  /\ step (mkInput c now (EvWebrtcIce (PVal JUndefined))) w
     = Throw TypeError w [].
Proof. repeat split. Qed.

(** What the guards do catch: an object that lacks a required property
    makes [join], [stream:consent] and [admin:subscribe] return at once,
    with the world as it was and nothing sent. *)
Lemma missing_property_ignored (c : string) (now : Z) (w : world)
    (o : list (string * jsval)) :
  truthy (prop "roomId" o) && truthy (prop "userId" o) = false ->
  step (mkInput c now (EvJoin (PObj o))) w = Ok tt w []
  /\ step (mkInput c now (EvStreamConsent (PObj o))) w = Ok tt w []
  /\ (truthy (prop "roomId" o) = false ->
      step (mkInput c now (EvAdminSubscribe (PObj o))) w = Ok tt w []).
Proof.
  intro H. unfold step. cbn [i_event i_socket i_now].
  split; [now apply (on_join_ignored c now w (PObj o) o)|].
  split; [now apply (on_stream_consent_ignored c now w (PObj o) o)|].
  intro Hr. now apply (on_admin_subscribe_ignored c w (PObj o) o).
Qed.

(** * Scenarios *)

(** Connection A joins r1, admin B subscribes and gets an empty list, A
    consents and B's group gets A's entry and the availability notice, A
    disconnects and the group gets the empty list again. *)
Example scenario_join_subscribe_consent_disconnect :
  run [mkInput "A" 10
         (EvJoin (PObj [("roomId", JStr "r1"); ("userId", JStr "u1")]));
       mkInput "B" 11 (EvAdminSubscribe (PObj [("roomId", JStr "r1")]));
       mkInput "A" 12
         (EvStreamConsent
            (PObj [("roomId", JStr "r1"); ("userId", JStr "u1");
                   ("allow", JBool true)]));
       mkInput "A" 13 EvDisconnect] initial_world
  = Ok tt
      (mkWorld
         (mkStore [(JStr "r1", [])] [(JStr "r1", ["B"])])
         [("A", mkData (Some Participant) (JStr "r1") (JStr "u1"));
          ("B", mkData (Some Admin) (JStr "r1") JUndefined)])
      [SocketJoin "A" "room:r1";
       Emit (ThisSocket "A") "admin:list" (AdminList (JStr "r1") []);
       Emit (Group "admin:r1") "room:update" (RoomUpdate []);
       SocketJoin "B" "admin:r1";
       Emit (ThisSocket "B") "room:update" (RoomUpdate []);
       Emit (Group "room:r1") "admin:online" (AdminSocket "B");
       Emit (ThisSocket "A") "admin:list" (AdminList (JStr "r1") ["B"]);
       Emit (Group "admin:r1") "room:update"
         (RoomUpdate [mkEntry "A" (JStr "u1") (JStr "u1") 12]);
       Emit (Group "admin:r1") "participant:streamAllowed"
         (StreamAllowed "A" (JStr "u1") true);
       Emit (Group "admin:r1") "room:update" (RoomUpdate [])].
Proof. vm_compute. reflexivity. Qed.

(** The other way a record outlives its connection: A joins r1 and consents
    for r2, a room it never joined.  Its disconnect clears r1 only, and the
    broadcast of B's later join to r2 lists A. *)
Example scenario_consent_for_another_room :
  exists w out,
    run [mkInput "A" 1
           (EvJoin (PObj [("roomId", JStr "r1"); ("userId", JStr "u1")]));
         mkInput "A" 2
           (EvStreamConsent
              (PObj [("roomId", JStr "r2"); ("userId", JStr "u1");
                     ("allow", JBool true)]));
         mkInput "A" 3 EvDisconnect;
         mkInput "B" 4
           (EvJoin (PObj [("roomId", JStr "r2"); ("userId", JStr "u2")]))]
      initial_world = Ok tt w out
    /\ last out (SocketJoin "none" "none")
       = Emit (Group "admin:r2") "room:update"
           (RoomUpdate [mkEntry "A" (JStr "u1") JUndefined 2]).
Proof. do 2 eexists. split; vm_compute; reflexivity. Qed.

(** The number [1] and the string ["1"] are two rooms in the store and one
    group on the wire: A joins room [1], admin B subscribes to room ["1"],
    and the list of room [1] that A's consent triggers goes to the group
    [admin:1], which B is in. *)
Example scenario_number_and_string_share_a_group :
  run [mkInput "A" 1
         (EvJoin (PObj [("roomId", JNum 1); ("userId", JStr "u1")]));
       mkInput "B" 2 (EvAdminSubscribe (PObj [("roomId", JStr "1")]));
       mkInput "A" 3
         (EvStreamConsent
            (PObj [("roomId", JNum 1); ("userId", JStr "u1");
                   ("allow", JBool true)]))] initial_world
  = Ok tt
      (mkWorld
         (mkStore
            [(JNum 1,
              [("A", mkParticipant (Some (JStr "u1")) (Some (JStr "u1"))
                       (Some true) 3)]);
             (JStr "1", [])]
            [(JNum 1, []); (JStr "1", ["B"])])
         [("A", mkData (Some Participant) (JNum 1) (JStr "u1"));
          ("B", mkData (Some Admin) (JStr "1") JUndefined)])
      [SocketJoin "A" "room:1";
       Emit (ThisSocket "A") "admin:list" (AdminList (JNum 1) []);
       Emit (Group "admin:1") "room:update" (RoomUpdate []);
       SocketJoin "B" "admin:1";
       Emit (ThisSocket "B") "room:update" (RoomUpdate []);
       Emit (Group "room:1") "admin:online" (AdminSocket "B");
       Emit (ThisSocket "A") "admin:list" (AdminList (JNum 1) []);
       Emit (Group "admin:1") "room:update"
         (RoomUpdate [mkEntry "A" (JStr "u1") (JStr "u1") 3]);
       Emit (Group "admin:1") "participant:streamAllowed"
         (StreamAllowed "A" (JStr "u1") true)].
Proof. vm_compute. reflexivity. Qed.

(** A room id that has no string form, such as an object whose [toString]
    is [null]: the join records the id and creates the room, then throws
    at [socket.join], before it writes a participant record. *)
Example scenario_room_id_without_string_form :
  step (mkInput "A" 1
          (EvJoin (PObj [("roomId", JRef 0 None); ("userId", JStr "u1")])))
    initial_world
  = Throw TypeError
      (mkWorld
         (mkStore [(JRef 0 None, [])] [(JRef 0 None, [])])
         [("A", mkData (Some Participant) (JRef 0 None) (JStr "u1"))])
      [].
Proof. vm_compute. reflexivity. Qed.

(** Entries seen at the same time keep the order of the scan; later ones
    come first. *)
Example scenario_sort_is_stable :
  stream_enabled
    [("a", mkParticipant (Some (JStr "ua")) None (Some true) 5);
     ("b", mkParticipant (Some (JStr "ub")) None (Some false) 9);
     ("c", mkParticipant (Some (JStr "uc")) None (Some true) 7);
     ("d", mkParticipant (Some (JStr "ud")) None (Some true) 5);
     ("e", mkParticipant (Some (JStr "ue")) None None 8);
     ("f", mkParticipant (Some (JStr "uf")) None (Some true) 7)]
  = [mkEntry "c" (JStr "uc") JUndefined 7;
     mkEntry "f" (JStr "uf") JUndefined 7;
     mkEntry "a" (JStr "ua") JUndefined 5;
     mkEntry "d" (JStr "ud") JUndefined 5].
Proof. vm_compute. reflexivity. Qed.

(** * Further properties of the store functions *)

Section JsMapMore.
Context {K V : Type}.
Variable keq : K -> K -> bool.
Hypothesis keq_eq : forall a b, keq a b = true <-> a = b.

Lemma map_set_keys_new (k : K) (v : V) (m : list (K * V)) :
  map_has keq k m = false ->
  map fst (map_set keq k v m) = (map fst m ++ [k])%list.
Proof.
  unfold map_has. induction m as [|[k' v'] m IH]; [reflexivity|].
  unfold map_set; fold (@map_set K V keq). simpl.
  destruct (keq k k'); simpl; [discriminate|].
  intro H. now rewrite IH.
Qed.

(** Writing back what is stored changes nothing. *)
Lemma map_set_same_value (k : K) (v : V) (m : list (K * V)) :
  map_get keq k m = Some v -> map_set keq k v m = m.
Proof.
  induction m as [|[k' v'] m IH]; [discriminate|].
  unfold map_set; fold (@map_set K V keq). simpl.
  destruct (keq k k').
  - now intros [= ->].
  - intro H. now rewrite IH.
Qed.

(** Deleting a key that is not there changes nothing. *)
Lemma map_delete_absent (k : K) (m : list (K * V)) :
  map_get keq k m = None -> map_delete keq k m = m.
Proof.
  unfold map_delete. induction m as [|[k' v'] m IH]; [reflexivity|].
  simpl. destruct (keq k k'); simpl; [discriminate|].
  intro H. now rewrite IH.
Qed.


Lemma set_add_NoDup (k : K) (s : list K) :
  NoDup s -> NoDup (set_add keq k s).
Proof.
  intro H. unfold set_add, set_has.
  destruct (existsb (keq k) s) eqn:E; [exact H|].
  apply NoDup_app; [exact H | repeat constructor; tauto |].
  intros x Hx [<- | []].
  assert (existsb (keq k) s = true); [|congruence].
  apply existsb_exists. exists k. split; [exact Hx|].
  apply (keq_refl keq keq_eq).
Qed.

Lemma set_delete_NoDup (k : K) (s : list K) :
  NoDup s -> NoDup (set_delete keq k s).
Proof. intro H. unfold set_delete. now apply NoDup_filter. Qed.

(** Adding a member again leaves the set as it is. *)
Lemma set_add_member (k : K) (s : list K) : In k s -> set_add keq k s = s.
Proof.
  intro H. unfold set_add, set_has.
  assert (E : existsb (keq k) s = true).
  { apply existsb_exists. exists k. split; [exact H|].
    apply (keq_refl keq keq_eq). }
  now rewrite E.
Qed.
End JsMapMore.

(** X1.  [ensureRoom] makes the room known and touches nothing that is
    there: the participant map and admin set of every room read as before,
    known rooms stay known, a second call changes nothing, and on a known
    room the store is returned as it is. *)
Theorem ensureRoom_creates_without_clobbering (r : jsval) (s : store) :
  known r (ensureRoom r s) = true
  /\ (forall r', participants r' (ensureRoom r s) = participants r' s)
  /\ (forall r', admins r' (ensureRoom r s) = admins r' s)
  /\ (forall r', known r' s = true -> known r' (ensureRoom r s) = true)
  /\ ensureRoom r (ensureRoom r s) = ensureRoom r s
  /\ (known r s = true -> ensureRoom r s = s).
Proof.
  split; [apply known_ensureRoom|].
  split; [intro r'; apply participants_ensureRoom|].
  split; [intro r'; apply admins_ensureRoom|].
  split; [intro r'; apply known_ensureRoom_mono|].
  split; [apply ensureRoom_idempotent | apply ensureRoom_known].
Qed.

(** X2.  [upsertParticipant] always returns and writes exactly one record,
    that of the given connection in the given room: it is the old record
    (or an empty one) with the patch's properties laid over it and
    [lastSeen] set to the clock reading.  A connection that had a record
    keeps its place in the scan order, a new one goes last.  Every other
    record, in this and in every other room, and every admin set read as
    before. *)
Theorem upsertParticipant_writes_one_record (now : Z) (r : jsval) (c : string)
    (pt : patch) (s : store) :
  exists s' p,
    upsertParticipant now r c pt s = inr s'
    /\ record_of c r s' = Some p
    /\ p = spread (record_of c r s) pt now
    /\ lastSeen p = now
    /\ (forall old, record_of c r s = Some old ->
          (p_userId pt = None -> userId p = userId old)
          /\ (p_displayName pt = None -> displayName p = displayName old)
          /\ (p_streamAllowed pt = None -> streamAllowed p = streamAllowed old))
    /\ map fst (participants r s')
       = (if map_has String.eqb c (participants r s)
          then map fst (participants r s)
          else map fst (participants r s) ++ [c])%list
    /\ (forall c' r', c' <> c \/ r' <> r ->
          record_of c' r' s' = record_of c' r' s)
    /\ (forall r', admins r' s' = admins r' s).
Proof.
  destruct (upsertParticipant_returns now r c pt s) as [s' Hup].
  exists s', (spread (record_of c r s) pt now).
  split; [exact Hup|].
  split; [apply (upsert_record_same _ _ _ _ _ _ Hup)|].
  split; [reflexivity|]. split; [reflexivity|]. split.
  { intros old Hold. rewrite Hold. simpl.
    repeat split; intros ->; reflexivity. }
  split.
  { rewrite (upsert_participants_same _ _ _ _ _ _ Hup).
    destruct (map_has String.eqb c (participants r s)) eqn:E.
    - now apply map_set_keys_has.
    - now apply map_set_keys_new. }
  split.
  - intros c' r' [Hc | Hr].
    + now apply (upsert_record_other _ _ _ _ _ _ Hup).
    + apply (upsert_record_other_room _ _ _ _ _ _ Hup). congruence.
  - intro r'. apply (upsert_admins _ _ _ _ _ _ Hup).
Qed.

Lemma removeParticipant_absent (r : jsval) (c : string) (s : store) :
  record_of c r s = None -> removeParticipant r c s = s.
Proof.
  unfold record_of, participants, removeParticipant.
  destruct (map_get same_value_zero r (rooms s)) as [rm|] eqn:E;
    [|reflexivity].
  intro H. rewrite (map_delete_absent _ _ _ H).
  pose proof (map_set_same_value same_value_zero r rm (rooms s) E) as Hset.
  destruct s as [rs ra]. cbn [rooms roomAdmins] in *.
  f_equal. exact Hset.
Qed.

(** X3.  [removeParticipant] deletes the one record of the given connection
    in the given room and nothing else: afterwards the connection has no
    record there, the others in the room keep theirs in the same order,
    other rooms and all admin sets read as before, and no room disappears.
    Where there is nothing to delete, for an unknown room or a connection
    without a record, the store is returned unchanged; so a second call
    does nothing. *)
Theorem removeParticipant_deletes_one_record (r : jsval) (c : string)
    (s : store) :
  record_of c r (removeParticipant r c s) = None
  /\ map fst (participants r (removeParticipant r c s))
     = filter (fun k => negb (String.eqb c k)) (map fst (participants r s))
  /\ (forall c' r', c' <> c \/ r' <> r ->
        record_of c' r' (removeParticipant r c s) = record_of c' r' s)
  /\ (forall r', admins r' (removeParticipant r c s) = admins r' s)
  /\ (forall r', present r' (removeParticipant r c s) = present r' s)
  /\ (record_of c r s = None -> removeParticipant r c s = s)
  /\ removeParticipant r c (removeParticipant r c s) = removeParticipant r c s.
Proof.
  split; [apply remove_record_same|]. split.
  { rewrite remove_participants_same. unfold map_delete.
    induction (participants r s) as [|[k v] m IH]; [reflexivity|].
    simpl. destruct (String.eqb c k); simpl; now rewrite IH. }
  split.
  { intros c' r' [Hc | Hr].
    - now apply remove_record_other.
    - unfold record_of. rewrite remove_participants_other; congruence. }
  split; [intro r'; apply remove_admins|].
  split; [intro r'; apply present_removeParticipant|].
  split; [apply removeParticipant_absent|].
  apply removeParticipant_absent, remove_record_same.
Qed.

(** * Further properties of the handlers *)

Lemma step_throw_destructuring (i : input) (w : world) :
  destructurable (i_event i) = false -> step i w = Throw TypeError w [].
Proof.
  destruct i as [c now ev]. unfold step. cbn [i_socket i_now i_event].
  destruct ev as [arg| |arg|arg|arg|arg|arg|]; cbn [destructurable];
    try discriminate;
    destruct (destructure arg) as [[]|o] eqn:Hd; try discriminate; intros _.
  - now apply on_join_throw.
  - now apply on_stream_consent_throw.
  - now apply on_admin_subscribe_throw.
  - now apply relay_throw.
  - now apply relay_throw.
  - now apply relay_throw.
Qed.

Lemma step_returns_iff (i : input) (w : world) :
  (exists w' o, step i w = Ok tt w' o) <-> survives i w = true.
Proof.
  split; [|apply step_returns].
  intros (w' & o & H). destruct (survives i w) eqn:E; [reflexivity|].
  destruct (step_crashes i w E) as (w1 & o1 & H1). congruence.
Qed.

Lemma run_returns_iff (inputs : list input) (w : world) :
  (exists w' o, run inputs w = Ok tt w' o) <-> all_survive inputs w = true.
Proof.
  revert w. induction inputs as [|i rest IH]; intro w.
  - split; [reflexivity|]. intros _. now exists w, [].
  - cbn [all_survive]. rewrite andb_true_iff, <- step_returns_iff, <- IH.
    split.
    + intros (w' & o & H). apply run_cons in H.
      destruct H as (w1 & o1 & o2 & H1 & H2 & _).
      rewrite H1. cbn [after]. eauto 6.
    + intros [(w1 & o1 & H1) (w2 & o2 & H2)].
      rewrite H1 in H2. cbn [after] in H2.
      exists w2, (o1 ++ o2)%list. now apply run_cons_Ok with (w1 := w1).
Qed.

(** X4.  The exceptions a handler raises are two [TypeError]s: that of
    destructuring [undefined] or [null] in the parameter list, raised
    before anything is done, and that of a template literal
    [`room:${roomId}`] or [`admin:${roomId}`] over a room id that has no
    string form, raised after the guard.  An event is handled to the end
    exactly when neither applies, and a sequence of events exactly when
    none of them meets either, each in the state its predecessors leave.
    The lookups [rooms.get(roomId)] and [roomAdmins.get(roomId)] never
    come back [undefined] where the code calls a method on them.  In a
    state the server can reach, heartbeats and disconnects are always
    handled to the end. *)
Theorem handlers_throw_exactly_on_two_conversions :
  (forall i w,
     ((exists w' o, step i w = Ok tt w' o) <-> survives i w = true)
     /\ ((exists w' o, step i w = Throw TypeError w' o)
         <-> survives i w = false)
     /\ (destructurable (i_event i) = false -> step i w = Throw TypeError w []))
  /\ (forall inputs w,
        (exists w' o, run inputs w = Ok tt w' o)
        <-> all_survive inputs w = true)
  /\ (forall c t w,
        reachable w ->
        (exists w' o, step (mkInput c t EvPing) w = Ok tt w' o)
        /\ (exists w' o, step (mkInput c t EvDisconnect) w = Ok tt w' o)).
Proof.
  split; [|split].
  - intros i w. split; [apply step_returns_iff|]. split.
    + split; [|apply step_crashes].
      intros (w' & o & H). destruct (survives i w) eqn:E; [|reflexivity].
      destruct (step_returns i w E) as (w1 & o1 & H1). congruence.
    + apply step_throw_destructuring.
  - apply run_returns_iff.
  - intros c t w Hw. pose proof (reachable_rooms_named w Hw c) as Hn.
    split; apply step_returns;
      unfold survives, passes_guard, event_room;
      cbn [i_event i_socket destructurable andb];
      (destruct (truthy (d_roomId (data_of c w))); [now rewrite Hn|reflexivity]).
Qed.

Lemma touches_admins_other (c0 c : string) (closing : bool) (r : jsval)
    (s s' : store) :
  touches c0 closing s s' -> c <> c0 ->
  (In c (admins r s') <-> In c (admins r s)).
Proof.
  induction 1 as [ | closing r0 s | closing now r0 pt s s' Hup
                 | closing r0 s s' Hadd | r0 s s' Hdel | r0 s
                 | closing s1 s2 s3 _ IH1 _ IH2 ]; intro Hc.
  - reflexivity.
  - now rewrite admins_ensureRoom.
  - now rewrite (upsert_admins _ _ _ _ _ _ Hup).
  - destruct (jsval_eq_dec r0 r) as [-> | Hne].
    + rewrite (add_admins_same _ _ _ _ Hadd). intuition congruence.
    + now rewrite (add_admins_other _ _ _ _ _ Hadd Hne).
  - destruct (jsval_eq_dec r0 r) as [-> | Hne].
    + rewrite (delete_admins_same _ _ _ _ Hdel). intuition congruence.
    + now rewrite (delete_admins_other _ _ _ _ _ Hdel Hne).
  - now rewrite remove_admins.
  - rewrite IH2, IH1; tauto.
Qed.

(** X5.  An event changes nothing that belongs to another connection,
    whether its handler returns or throws: the other's [socket.data], its
    participant record in every room and its membership in every admin set
    are after the event what they were before. *)
Theorem events_leave_other_connections_alone (i : input) (w : world)
    (c : string) :
  c <> i_socket i ->
  data_of c (after (step i w)) = data_of c w
  /\ (forall r, record_of c r (w_store (after (step i w)))
                = record_of c r (w_store w))
  /\ (forall r, In c (admins r (w_store (after (step i w))))
                <-> In c (admins r (w_store w))).
Proof.
  intro Hc. pose proof (outcome_touches i w) as Ht.
  split; [now apply outcome_data_other|]. split.
  - intro r. now apply (touches_record_other _ c _ r _ _ Ht).
  - intro r. now apply (touches_admins_other _ c _ r _ _ Ht).
Qed.

Lemma events_leave_other_connections_alone_witness :
  let w :=
    mkWorld
      (mkStore
         [(JStr "r1",
           [("A", mkParticipant (Some (JStr "u1")) (Some (JStr "u1"))
                    (Some true) 2);
            ("B", mkParticipant (Some (JStr "u2")) (Some (JStr "u2"))
                    None 3)])]
         [(JStr "r1", ["A"])])
      [("A", mkData (Some Admin) (JStr "r1") (JStr "u1"));
       ("B", mkData (Some Participant) (JStr "r1") (JStr "u2"))] in
  let w' := after (step (mkInput "B" 7 EvDisconnect) w) in
  "A" <> "B"
  /\ data_of "A" w' = data_of "A" w
  /\ (forall r, record_of "A" r (w_store w') = record_of "A" r (w_store w))
  /\ (forall r,
        In "A" (admins r (w_store w')) <-> In "A" (admins r (w_store w))).
Proof.
  intros w w'. split; [discriminate|].
  apply (events_leave_other_connections_alone (mkInput "B" 7 EvDisconnect)
           w "A"); discriminate.
Defined.

(** X6.  No handler deletes a room: a room id that has its participant map
    and admin set keeps both through every sequence of events, handled to
    the end or not, also when its last participant and its last admin have
    gone. *)
Theorem rooms_are_never_deleted (inputs : list input) (w : world) (r : jsval) :
  known r (w_store w) = true ->
  known r (w_store (after (run inputs w))) = true.
Proof.
  intro Hk.
  apply (run_outcome_preserves (fun w => known r (w_store w) = true)
           (fun _ => True)); [| now apply Forall_forall | exact Hk].
  intros i w0 _ Hk0.
  exact (touches_known _ _ r _ _ (outcome_touches i w0) Hk0).
Qed.

Lemma rooms_are_never_deleted_witness :
  let w :=
    mkWorld
      (mkStore
         [(JStr "r1",
           [("A", mkParticipant (Some (JStr "u1")) (Some (JStr "u1"))
                    None 2)])]
         [(JStr "r1", ["B"])])
      [("A", mkData (Some Participant) (JStr "r1") (JStr "u1"));
       ("B", mkData (Some Admin) (JStr "r1") JUndefined)] in
  known (JStr "r1") (w_store w) = true
  /\ known (JStr "r1")
       (w_store (after (run [mkInput "A" 5 EvDisconnect;
                             mkInput "B" 6 EvDisconnect] w))) = true.
Proof.
  intro w. split; [reflexivity|].
  apply (rooms_are_never_deleted
           [mkInput "A" 5 EvDisconnect; mkInput "B" 6 EvDisconnect] w
           (JStr "r1")).
  reflexivity.
Defined.

(** X7.  A participant record is only ever removed by the disconnect of its
    own connection: a connection that has a record in a room still has one
    after any sequence of events, handled to the end or not, that does not
    contain its own disconnect.  Heartbeats that stop coming evict
    nobody. *)
Theorem record_stays_until_own_disconnect (c : string) (r : jsval)
    (inputs : list input) (w : world) :
  Forall (fun i => closes c i = false) inputs ->
  record_of c r (w_store w) <> None ->
  record_of c r (w_store (after (run inputs w))) <> None.
Proof.
  intros Hopen Hrec.
  apply (run_outcome_preserves (fun w => record_of c r (w_store w) <> None)
           (fun i => closes c i = false)); [|exact Hopen|exact Hrec].
  intros i w0 Hi Hrec0.
  eapply touches_record_stays;
    [exact (outcome_touches i w0) | | exact Hrec0].
  now apply closes_false.
Qed.

Lemma record_stays_until_own_disconnect_witness :
  let w :=
    mkWorld
      (mkStore
         [(JStr "r1",
           [("A", mkParticipant (Some (JStr "u1")) (Some (JStr "u1"))
                    None 2)])]
         [(JStr "r1", ["B"])])
      [("A", mkData (Some Participant) (JStr "r1") (JStr "u1"));
       ("B", mkData (Some Admin) (JStr "r1") JUndefined)] in
  let inputs :=
    [mkInput "B" 5 EvDisconnect;
     mkInput "A" 6 (EvAdminSubscribe (PObj [("roomId", JStr "r1")]));
     mkInput "C" 7 (EvJoin (PObj [("roomId", JStr "r1");
                                  ("userId", JStr "u3")]))] in
  Forall (fun i => closes "A" i = false) inputs
  /\ record_of "A" (JStr "r1") (w_store w) <> None
  /\ record_of "A" (JStr "r1") (w_store (after (run inputs w))) <> None.
Proof.
  intros w inputs.
  assert (Hopen : Forall (fun i => closes "A" i = false) inputs)
    by (repeat constructor).
  assert (Hrec : record_of "A" (JStr "r1") (w_store w) <> None)
    by discriminate.
  split; [exact Hopen|]. split; [exact Hrec|].
  exact (record_stays_until_own_disconnect "A" (JStr "r1") inputs w Hopen Hrec).
Defined.

(** X8.  The two registrations of a connection are cleaned up separately,
    by role label.  A disconnect leaves [socket.data] as it is; unless the
    role is [admin] it leaves every admin set as it is, also one that holds
    the connection; unless the role is [participant] it leaves every
    participant map as it is, also one that holds the connection.  Rooms
    other than the recorded one are never touched.  The disconnect is
    handled to the end when the recorded room id has a string form. *)
Theorem disconnect_cleans_up_by_role (c : string) (t : Z) (w : world) :
  let w' := after (step (mkInput c t EvDisconnect) w) in
  (forall name, to_string (d_roomId (data_of c w)) = Some name ->
                exists o, step (mkInput c t EvDisconnect) w = Ok tt w' o)
  /\ w_data w' = w_data w
  /\ (d_role (data_of c w) <> Some Admin ->
      forall r, admins r (w_store w') = admins r (w_store w))
  /\ (d_role (data_of c w) <> Some Participant ->
      forall r, participants r (w_store w') = participants r (w_store w))
  /\ (forall r, r <> d_roomId (data_of c w) ->
        participants r (w_store w') = participants r (w_store w)
        /\ admins r (w_store w') = admins r (w_store w)).
Proof.
  intro w'. subst w'.
  change (step (mkInput c t EvDisconnect) w) with (on_disconnect c w).
  split.
  { intros name Hs.
    destruct (truthy (d_roomId (data_of c w))) eqn:Hroom.
    - destruct (d_role (data_of c w)) as [[|]|] eqn:Hrole.
      + rewrite (on_disconnect_participant c w name Hroom Hrole Hs).
        cbn [after]. eexists. reflexivity.
      + destruct (on_disconnect_admin c w name Hroom Hrole Hs)
          as (s' & _ & H).
        rewrite H. cbn [after]. eexists. reflexivity.
      + rewrite (on_disconnect_no_role c w name Hroom Hrole Hs).
        cbn [after]. eexists. reflexivity.
    - rewrite (on_disconnect_ignored c w Hroom). cbn [after].
      eexists. reflexivity. }
  destruct (truthy (d_roomId (data_of c w))) eqn:Hroom.
  - destruct (d_role (data_of c w)) as [[|]|] eqn:Hrole;
      destruct (to_string (d_roomId (data_of c w))) as [name|] eqn:Hs.
    + rewrite (on_disconnect_participant c w name Hroom Hrole Hs).
      cbn [after w_store w_data]. split; [reflexivity|].
      split; [intros _ r; now rewrite admins_ensureRoom, remove_admins|].
      split; [congruence|].
      intros r Hr. rewrite participants_ensureRoom, admins_ensureRoom.
      rewrite remove_participants_other by congruence.
      now rewrite remove_admins.
    + rewrite (on_disconnect_participant_crash c w Hroom Hrole Hs).
      cbn [after w_store w_data]. split; [reflexivity|].
      split; [intros _ r; now rewrite remove_admins|].
      split; [congruence|].
      intros r Hr. rewrite remove_participants_other by congruence.
      now rewrite remove_admins.
    + destruct (on_disconnect_admin c w name Hroom Hrole Hs)
        as (s' & Hdel & H).
      rewrite H. cbn [after w_store w_data]. split; [reflexivity|].
      assert (Hpart : forall r, participants r s' = participants r (w_store w)).
      { intro r.
        rewrite (participants_rooms r s' _ (delete_rooms _ _ _ _ Hdel)).
        apply participants_ensureRoom. }
      split; [congruence|]. split; [intros _; exact Hpart|].
      intros r Hr. split; [apply Hpart|].
      rewrite (delete_admins_other _ _ _ _ _ Hdel) by congruence.
      apply admins_ensureRoom.
    + destruct (on_disconnect_admin_crash c w Hroom Hrole Hs)
        as (s' & Hdel & H).
      rewrite H. cbn [after w_store w_data]. split; [reflexivity|].
      assert (Hpart : forall r, participants r s' = participants r (w_store w)).
      { intro r.
        rewrite (participants_rooms r s' _ (delete_rooms _ _ _ _ Hdel)).
        apply participants_ensureRoom. }
      split; [congruence|]. split; [intros _; exact Hpart|].
      intros r Hr. split; [apply Hpart|].
      rewrite (delete_admins_other _ _ _ _ _ Hdel) by congruence.
      apply admins_ensureRoom.
    + rewrite (on_disconnect_no_role c w name Hroom Hrole Hs).
      cbn [after w_store w_data]. split; [reflexivity|].
      split; [intros _ r; apply admins_ensureRoom|].
      split; [intros _ r; apply participants_ensureRoom|].
      intros r _. now rewrite participants_ensureRoom, admins_ensureRoom.
    + rewrite (on_disconnect_no_role_crash c w Hroom Hrole Hs).
      cbn [after]. repeat split; reflexivity.
  - rewrite (on_disconnect_ignored c w Hroom). cbn [after].
    repeat split; reflexivity.
Qed.

(** ** Keys stay unique *)

Lemma add_admins_eq (r : jsval) (c : string) (s s' : store) :
  roomAdmins_add r c s = inr s' ->
  admins r s' = set_add String.eqb c (admins r s).
Proof.
  unfold roomAdmins_add. intro H.
  destruct (map_get same_value_zero r (roomAdmins s)) eqn:E; [|discriminate].
  injection H as <-. rewrite admins_set_same. unfold admins. now rewrite E.
Qed.

Lemma delete_admins_eq (r : jsval) (c : string) (s s' : store) :
  roomAdmins_delete r c s = inr s' ->
  admins r s' = set_delete String.eqb c (admins r s).
Proof.
  unfold roomAdmins_delete. intro H.
  destruct (map_get same_value_zero r (roomAdmins s)) eqn:E; [|discriminate].
  injection H as <-. rewrite admins_set_same. unfold admins. now rewrite E.
Qed.

Lemma touches_unique_keys (c0 : string) (closing : bool) (s s' : store) :
  touches c0 closing s s' -> unique_keys s -> unique_keys s'.
Proof.
  induction 1 as [ | closing r0 s | closing now r0 pt s s' Hup
                 | closing r0 s s' Hadd | r0 s s' Hdel | r0 s
                 | closing s1 s2 s3 _ IH1 _ IH2 ]; intros Hu r;
    try (destruct (Hu r) as [Hp Ha]).
  - now split.
  - now rewrite participants_ensureRoom, admins_ensureRoom.
  - rewrite (upsert_admins _ _ _ _ _ _ Hup). split; [|exact Ha].
    destruct (jsval_eq_dec r0 r) as [-> | Hne].
    + rewrite (upsert_participants_same _ _ _ _ _ _ Hup).
      now apply (map_set_NoDup _ String.eqb_eq).
    + now rewrite (upsert_participants_other _ _ _ _ _ _ Hup r Hne).
  - rewrite (participants_rooms r s' s (add_rooms _ _ _ _ Hadd)).
    split; [exact Hp|].
    destruct (jsval_eq_dec r0 r) as [-> | Hne].
    + rewrite (add_admins_eq _ _ _ _ Hadd).
      now apply (set_add_NoDup _ String.eqb_eq).
    + now rewrite (add_admins_other _ _ _ _ _ Hadd Hne).
  - rewrite (participants_rooms r s' s (delete_rooms _ _ _ _ Hdel)).
    split; [exact Hp|].
    destruct (jsval_eq_dec r0 r) as [-> | Hne].
    + rewrite (delete_admins_eq _ _ _ _ Hdel). now apply set_delete_NoDup.
    + now rewrite (delete_admins_other _ _ _ _ _ Hdel Hne).
  - rewrite remove_admins. split; [|exact Ha].
    destruct (jsval_eq_dec r0 r) as [-> | Hne].
    + rewrite remove_participants_same. now apply map_delete_NoDup.
    + now rewrite remove_participants_other.
  - apply IH2, IH1, Hu.
Qed.

Lemma reachable_unique_keys (w : world) :
  reachable w -> unique_keys (w_store w).
Proof.
  induction 1 as [|i w w' o _ IH Hstep].
  - intro r. split; constructor.
  - exact (touches_unique_keys _ _ _ _ (step_touches _ _ _ _ Hstep) IH).
Qed.

(** What the messages carry: the admin set of the room the event works on,
    read in the store the handler leaves. *)
Lemma outcome_admin_list (i : input) (w : world) (t : target) (ev : string)
    (r : jsval) (l : list string) :
  In (Emit t ev (AdminList r l)) (sent (step i w)) ->
  r = event_room i w
  /\ l = admins r (w_store (after (step i w)))
  /\ known r (w_store (after (step i w))) = true
  /\ t = ThisSocket (i_socket i).
Proof.
  unfold event_room.
  outcome_cases i w; cbn [w_store i_socket i_event] in *; rewrite ?Hd;
    intro Hin;
    repeat (destruct Hin as [Hin | Hin]; [try discriminate Hin|]);
    try contradiction;
    injection Hin as <- <- <- <-;
    (split; [reflexivity
            | split; [reflexivity
                     | split; [eapply upsert_known; eassumption
                              | reflexivity]]]).
Qed.

Lemma step_admin_list (i : input) (w w' : world) (o : list action)
    (t : target) (ev : string) (r : jsval) (l : list string) :
  step i w = Ok tt w' o ->
  In (Emit t ev (AdminList r l)) o ->
  l = admins r (w_store w') /\ known r (w_store w') = true
  /\ t = ThisSocket (i_socket i).
Proof.
  intros H Hin. pose proof (outcome_admin_list i w t ev r l) as Ho.
  rewrite H in Ho. cbn [after sent] in Ho.
  destruct (Ho Hin) as (_ & Hl & Hk & Ht). auto.
Qed.

(** X9.  In every state the server can reach no connection id is twice a
    key of a room's participant map and none stands twice in a room's admin
    set; so an [admin:list] message never names an admin twice. *)
Theorem keys_stay_unique (w : world) :
  reachable w ->
  unique_keys (w_store w)
  /\ (forall i w' o t ev r l,
        step i w = Ok tt w' o -> In (Emit t ev (AdminList r l)) o -> NoDup l).
Proof.
  intro Hreach. split; [now apply reachable_unique_keys|].
  intros i w' o t ev r l Hstep Hin.
  destruct (step_admin_list _ _ _ _ _ _ _ _ Hstep Hin) as [-> _].
  apply (reachable_unique_keys w' (reach_step _ _ _ _ Hreach Hstep)).
Qed.

Lemma keys_stay_unique_witness :
  let w :=
    mkWorld
      (mkStore
         [(JStr "r1",
           [("A", mkParticipant (Some (JStr "u1")) (Some (JStr "u1"))
                    (Some true) 2)])]
         [(JStr "r1", ["B"])])
      [("B", mkData (Some Admin) (JStr "r1") JUndefined);
       ("A", mkData (Some Participant) (JStr "r1") (JStr "u1"))] in
  unique_keys (w_store w)
  /\ (forall i w' o t ev r l,
        step i w = Ok tt w' o -> In (Emit t ev (AdminList r l)) o -> NoDup l).
Proof.
  intro w. apply (keys_stay_unique w).
  eapply (run_reachable
            [mkInput "B" 0 (EvAdminSubscribe (PObj [("roomId", JStr "r1")]));
             mkInput "B" 0 (EvAdminSubscribe (PObj [("roomId", JStr "r1")]));
             mkInput "A" 1
               (EvJoin (PObj [("roomId", JStr "r1"); ("userId", JStr "u1")]));
             mkInput "A" 2
               (EvStreamConsent
                  (PObj [("roomId", JStr "r1"); ("userId", JStr "u1");
                         ("allow", JBool true)]))]
            initial_world w);
    [apply reach_initial | vm_compute; reflexivity].
Defined.


(** X11.  No handler speaks for another connection: the sender's own id is
    the socket that is put into a group, the socket a reply goes to, the
    [from] of every relayed signal, the [socketId] of every consent notice
    and the [adminSocketId] of every admin-online and admin-offline
    notice.  A client cannot choose these ids through its payload. *)
Theorem messages_carry_the_senders_id (i : input) (w : world) :
  Forall (signed_by (i_socket i)) (sent (step i w)).
Proof. outcome_cases i w; cbn [i_socket]; repeat constructor. Qed.

(** ** Subscribing, and who learns of it *)

(** X12.  Subscribing again is idempotent: a second [admin:subscribe] of the
    same connection to the same room leaves the store and every
    connection's data exactly as the first one left them.  Both are handled
    to the end when the room id has a string form. *)
Theorem resubscribe_is_idempotent (c : string) (t1 t2 : Z) (arg : payload)
    (o : list (string * jsval)) (w : world) :
  destructure arg = inr o ->
  truthy (prop "roomId" o) = true ->
  let w1 := after (step (mkInput c t1 (EvAdminSubscribe arg)) w) in
  after (step (mkInput c t2 (EvAdminSubscribe arg)) w1) = w1
  /\ (forall name, to_string (prop "roomId" o) = Some name ->
      exists o1 o2,
        step (mkInput c t1 (EvAdminSubscribe arg)) w = Ok tt w1 o1
        /\ step (mkInput c t2 (EvAdminSubscribe arg)) w1 = Ok tt w1 o2).
Proof.
  intros Hd Hr w1.
  assert (Hshape : forall w0,
             exists s',
               roomAdmins_add (prop "roomId" o) c
                 (ensureRoom (prop "roomId" o) (w_store w0)) = inr s'
               /\ after (step (mkInput c t1 (EvAdminSubscribe arg)) w0)
                  = mkWorld s'
                      (map_set String.eqb c
                         (mkData (Some Admin) (prop "roomId" o)
                            (d_userId (data_of c w0)))
                         (w_data w0))).
  { intro w0.
    change (step (mkInput c t1 (EvAdminSubscribe arg)) w0)
      with (on_admin_subscribe c arg w0).
    destruct (to_string (prop "roomId" o)) as [name|] eqn:Hname.
    - destruct (on_admin_subscribe_run c w0 arg o name Hd Hr Hname)
        as (s' & Hadd & Hrun).
      exists s'. split; [exact Hadd | now rewrite Hrun].
    - destruct (on_admin_subscribe_crash c w0 arg o Hd Hr Hname)
        as (s' & Hadd & Hrun).
      exists s'. split; [exact Hadd | now rewrite Hrun]. }
  assert (Hreturns : forall w0 t name,
             to_string (prop "roomId" o) = Some name ->
             exists out,
               step (mkInput c t (EvAdminSubscribe arg)) w0
               = Ok tt (after (step (mkInput c t (EvAdminSubscribe arg)) w0))
                   out).
  { intros w0 t name Hname.
    change (step (mkInput c t (EvAdminSubscribe arg)) w0)
      with (on_admin_subscribe c arg w0).
    destruct (on_admin_subscribe_run c w0 arg o name Hd Hr Hname)
      as (s' & Hadd & Hrun).
    rewrite Hrun. cbn [after]. eexists. reflexivity. }
  assert (Hidem : after (step (mkInput c t2 (EvAdminSubscribe arg)) w1) = w1).
  { destruct (Hshape w) as (s1 & Hadd1 & Ew1). fold w1 in Ew1.
    destruct (Hshape w1) as (s2 & Hadd2 & Ew2).
    change (step (mkInput c t1 (EvAdminSubscribe arg)) w1)
      with (step (mkInput c t2 (EvAdminSubscribe arg)) w1) in Ew2.
    rewrite Ew2. rewrite Ew1 in Hadd2 |- *. cbn [w_store w_data] in *.
    assert (Hk1 : known (prop "roomId" o) s1 = true).
    { eapply add_known_mono; [exact Hadd1 | apply known_ensureRoom]. }
    assert (Hin : In c (admins (prop "roomId" o) s1)).
    { apply (add_admins_same _ _ _ _ Hadd1). now left. }
    rewrite (ensureRoom_known _ _ Hk1), (roomAdmins_add_inr _ _ _ Hk1)
      in Hadd2.
    rewrite (set_add_member _ String.eqb_eq _ _ Hin) in Hadd2.
    pose proof (map_set_same_value same_value_zero _ _ _
                  (known_admins_get _ _ Hk1)) as Hsame.
    assert (E : s2 = s1).
    { injection Hadd2 as <-. destruct s1 as [rs ra].
      cbn [rooms roomAdmins] in *. f_equal. exact Hsame. }
    subst s2. rewrite data_of_put_same. cbn [d_userId].
    now rewrite (map_set_set _ String.eqb_eq). }
  split; [exact Hidem|].
  intros name Hname.
  destruct (Hreturns w t1 name Hname) as (o1 & H1).
  destruct (Hreturns w1 t2 name Hname) as (o2 & H2).
  rewrite Hidem in H2. now exists o1, o2.
Qed.

Lemma resubscribe_is_idempotent_witness :
  let sub t := mkInput "B" t (EvAdminSubscribe (PObj [("roomId", JStr "r1")])) in
  let w1 := after (step (sub 1) initial_world) in
  after (step (sub 2) w1) = w1
  /\ (forall name, to_string (JStr "r1") = Some name ->
      exists o1 o2,
        step (sub 1) initial_world = Ok tt w1 o1
        /\ step (sub 2) w1 = Ok tt w1 o2).
Proof.
  intros sub w1.
  apply (resubscribe_is_idempotent "B" 1 2 (PObj [("roomId", JStr "r1")])
           [("roomId", JStr "r1")] initial_world); reflexivity.
Defined.

Lemma run_app_Ok (l1 l2 : list input) (w w1 w2 : world) (o1 o2 : list action) :
  run l1 w = Ok tt w1 o1 -> run l2 w1 = Ok tt w2 o2 ->
  run (l1 ++ l2) w = Ok tt w2 (o1 ++ o2)%list.
Proof.
  revert w o1. induction l1 as [|i l1 IH]; intros w o1 H1 H2.
  - apply run_nil in H1. destruct H1 as [-> ->]. exact H2.
  - apply run_cons in H1. destruct H1 as (wa & oa & ob & Ha & Hb & ->).
    rewrite <- app_assoc. cbn [app].
    eapply run_cons_Ok; [exact Ha|]. now apply IH.
Qed.

(** X13.  A participant who joins a room learns of every admin who
    subscribed to it earlier and has not disconnected since: when the
    room id has a string form and the events in between are handled to the
    end, whatever they are, the [admin:list] sent back to the joining
    connection names that admin. *)
Theorem late_joiner_learns_admin (a c : string) (ta tc : Z) (r : jsval)
    (oa oc : list (string * jsval)) (between : list input) (w : world)
    (name : string) :
  truthy r = true ->
  to_string r = Some name ->
  prop "roomId" oa = r ->
  prop "roomId" oc = r ->
  truthy (prop "userId" oc) = true ->
  Forall (fun i => closes a i = false) between ->
  all_survive between
    (after (step (mkInput a ta (EvAdminSubscribe (PObj oa))) w)) = true ->
  exists w' out l,
    run (mkInput a ta (EvAdminSubscribe (PObj oa))
           :: between ++ [mkInput c tc (EvJoin (PObj oc))])%list w
    = Ok tt w' out
    /\ In (Emit (ThisSocket c) "admin:list" (AdminList r l)) out
    /\ In a l.
Proof.
  intros Hr Hname Ea Ec Hu Hopen Hall.
  assert (Ra : truthy (prop "roomId" oa) = true) by now rewrite Ea.
  assert (Rc : truthy (prop "roomId" oc) = true) by now rewrite Ec.
  assert (Na : to_string (prop "roomId" oa) = Some name) by now rewrite Ea.
  assert (Nc : to_string (prop "roomId" oc) = Some name) by now rewrite Ec.
  destruct (on_admin_subscribe_run a w (PObj oa) oa name eq_refl Ra Na)
    as (s1 & Hadd & Hrun1).
  change (step (mkInput a ta (EvAdminSubscribe (PObj oa))) w)
    with (on_admin_subscribe a (PObj oa) w) in Hall.
  rewrite Hrun1 in Hall. cbn [after] in Hall.
  match type of Hrun1 with _ = Ok tt ?x _ => set (w1 := x) in * end.
  assert (Hin1 : In a (admins r (w_store w1))).
  { cbn [w1 w_store]. rewrite <- Ea.
    apply (add_admins_same _ _ _ _ Hadd). now left. }
  destruct (proj2 (run_returns_iff between w1) Hall) as (w2 & o2 & Hrun2).
  pose proof (run_keeps_admin a r between w1 w2 o2 Hin1 Hopen Hrun2) as Hin2.
  destruct (on_join_run c tc w2 (PObj oc) oc name eq_refl Rc Hu Nc)
    as (s3 & Hup & Hrun3).
  rewrite Ec in Hup, Hrun3.
  do 2 eexists. exists (admins r s3). split.
  - eapply (run_cons_Ok (mkInput a ta (EvAdminSubscribe (PObj oa))));
      [exact Hrun1|].
    eapply run_app_Ok; [exact Hrun2|].
    eapply (run_cons_Ok (mkInput c tc (EvJoin (PObj oc))));
      [exact Hrun3 | reflexivity].
  - split.
    + apply in_or_app. right. apply in_or_app. right.
      apply in_or_app. left. right. left. reflexivity.
    + now rewrite (upsert_admins _ _ _ _ _ _ Hup).
Qed.

Lemma late_joiner_learns_admin_witness :
  exists w' out l,
    run (mkInput "B" 1 (EvAdminSubscribe (PObj [("roomId", JStr "r1")]))
           :: [mkInput "C" 2 EvPing;
               mkInput "B" 3
                 (EvJoin (PObj [("roomId", JStr "r2");
                                ("userId", JStr "ub")]))]
           ++ [mkInput "A" 4
                 (EvJoin (PObj [("roomId", JStr "r1");
                                ("userId", JStr "u1")]))])%list
      initial_world
    = Ok tt w' out
    /\ In (Emit (ThisSocket "A") "admin:list" (AdminList (JStr "r1") l)) out
    /\ In "B" l.
Proof.
  apply (late_joiner_learns_admin "B" "A" 1 4 (JStr "r1")
           [("roomId", JStr "r1")]
           [("roomId", JStr "r1"); ("userId", JStr "u1")]
           [mkInput "C" 2 EvPing;
            mkInput "B" 3
              (EvJoin (PObj [("roomId", JStr "r2"); ("userId", JStr "ub")]))]
           initial_world "r1");
    try reflexivity; repeat constructor.
Defined.

(** ** Consent and visibility *)




Lemma consent_has_user_subset (s s' : store) :
  (forall r c p, In (c, p) (participants r s') -> In (c, p) (participants r s)) ->
  consent_has_user s -> consent_has_user s'.
Proof. intros Hsub Hinv r c p Hin Hf. apply (Hinv r c p); auto. Qed.

Lemma upsert_consent_has_user (now : Z) (r : jsval) (c : string) (pt : patch)
    (s s' : store) :
  upsertParticipant now r c pt s = inr s' ->
  (exists u, p_userId pt = Some u /\ truthy u = true)
  \/ (p_userId pt = None /\ p_streamAllowed pt = None) ->
  consent_has_user s -> consent_has_user s'.
Proof.
  intros Hup Hpt Hinv r' c' p Hin Hf.
  destruct (jsval_eq_dec r r') as [<- | Hne].
  - rewrite (upsert_participants_same _ _ _ _ _ _ Hup) in Hin.
    apply (map_set_In _ String.eqb_eq) in Hin.
    destruct Hin as [[-> ->] | Hin]; [|now apply (Hinv r c' p)].
    destruct Hpt as [[u [Hu Ht]] | [Hu Hs]].
    + exists u. split; [|exact Ht]. unfold spread. simpl. now rewrite Hu.
    + unfold spread in *. simpl in *. rewrite Hu, Hs in *. simpl in *.
      destruct (record_of c r s) as [old|] eqn:E; [|congruence].
      apply (Hinv r c old); [|exact Hf].
      now apply (map_get_In _ String.eqb_eq).
  - rewrite (upsert_participants_other _ _ _ _ _ _ Hup r' Hne) in Hin.
    now apply (Hinv r' c' p).
Qed.

Lemma step_consent_has_user (i : input) (w w' : world) (o : list action) :
  step i w = Ok tt w' o ->
  consent_has_user (w_store w) -> consent_has_user (w_store w').
Proof.
  intros H Hinv. step_cases H; cbn [w_store]; try exact Hinv.
  - eapply upsert_consent_has_user; [exact Hst | | exact Hinv].
    left. eexists. split; [reflexivity | exact Huser].
  - eapply upsert_consent_has_user; [exact Hst | | exact Hinv].
    right. now split.
  - eapply upsert_consent_has_user; [exact Hst | | exact Hinv].
    left. eexists. split; [reflexivity | exact Huser].
  - apply (consent_has_user_subset (w_store w)); [|exact Hinv].
    intros r c p.
    rewrite (participants_rooms r s' _ (add_rooms _ _ _ _ Hst)).
    now rewrite participants_ensureRoom.
  - apply (consent_has_user_subset (w_store w)); [|exact Hinv].
    intros r c p. rewrite participants_ensureRoom.
    destruct (jsval_eq_dec (d_roomId (data_of sock w)) r) as [<- | Hne].
    + rewrite remove_participants_same. unfold map_delete.
      intro Hin. now apply filter_In in Hin.
    + now rewrite remove_participants_other.
  - apply (consent_has_user_subset (w_store w)); [|exact Hinv].
    intros r c p.
    rewrite (participants_rooms r s' _ (delete_rooms _ _ _ _ Hst)).
    now rewrite participants_ensureRoom.
  - apply (consent_has_user_subset (w_store w)); [|exact Hinv].
    intros r c p. now rewrite participants_ensureRoom.
Qed.

Lemma reachable_consent_has_user (w : world) :
  reachable w -> consent_has_user (w_store w).
Proof.
  induction 1 as [|i w w' o _ IH Hstep].
  - intros r c p [].
  - eapply step_consent_has_user; eassumption.
Qed.

(** X15.  Whoever is listed has a name: in every state the server can
    reach, each entry of each room's list carries a non-empty [userId], and
    so does each entry of each [room:update] that is sent.  (A record
    without [userId] can exist, written by a heartbeat; it has no consent
    flag and is not listed.) *)
Theorem listed_entries_have_a_user (w : world) :
  reachable w ->
  (forall r e,
     In e (stream_enabled (participants r (w_store w))) ->
     truthy (e_userId e) = true)
  /\ (forall i w' o t ev l e,
        step i w = Ok tt w' o -> In (Emit t ev (RoomUpdate l)) o -> In e l ->
        truthy (e_userId e) = true).
Proof.
  assert (Hview : forall w0 r e,
             reachable w0 ->
             In e (stream_enabled (participants r (w_store w0))) ->
             truthy (e_userId e) = true).
  { intros w0 r e Hreach He. apply stream_enabled_In in He.
    destruct He as (sid & p & Hin & Hf & ->).
    destruct (reachable_consent_has_user w0 Hreach r sid p Hin)
      as (u & Hu & Ht); [congruence|].
    cbn [e_userId]. now rewrite Hu. }
  intro Hreach. split; [intros r e; now apply Hview|].
  intros i w' o t ev l e Hstep Hin He.
  destruct (step_room_update _ _ _ _ _ _ _ Hstep Hin) as (-> & _).
  apply (Hview w' (event_room i w) e); [|exact He].
  eapply reach_step; eassumption.
Qed.

Lemma listed_entries_have_a_user_witness :
  let w :=
    mkWorld
      (mkStore
         [(JStr "r1",
           [("B", mkParticipant None None None 1);
            ("A", mkParticipant (Some (JStr "u1")) None (Some true) 2)])]
         [(JStr "r1", ["B"])])
      [("B", mkData (Some Admin) (JStr "r1") JUndefined)] in
  (forall r e,
     In e (stream_enabled (participants r (w_store w))) ->
     truthy (e_userId e) = true)
  /\ (forall i w' o t ev l e,
        step i w = Ok tt w' o -> In (Emit t ev (RoomUpdate l)) o -> In e l ->
        truthy (e_userId e) = true).
Proof.
  intro w. apply (listed_entries_have_a_user w).
  eapply (run_reachable
            [mkInput "B" 0 (EvAdminSubscribe (PObj [("roomId", JStr "r1")]));
             mkInput "B" 1 EvPing;
             mkInput "A" 2
               (EvStreamConsent
                  (PObj [("roomId", JStr "r1"); ("userId", JStr "u1");
                         ("allow", JBool true)]))]
            initial_world w);
    [apply reach_initial | vm_compute; reflexivity].
Defined.

(** ** Heartbeats *)

(** Writing a record that consents exactly when the old one did (and does
    not, if there was none) leaves the consenting keys as they were. *)
Lemma consenting_keys_set (c : string) (p' : participant) (rm : room) :
  (forall p, map_get String.eqb c rm = Some p ->
             streamAllowed p' = streamAllowed p) ->
  (map_get String.eqb c rm = None -> streamAllowed p' <> Some true) ->
  map fst (filter consents (map_set String.eqb c p' rm))
  = map fst (filter consents rm).
Proof.
  induction rm as [|[k v] rm IH]; intros Hsome Hnone.
  - unfold map_set, consents. simpl.
    specialize (Hnone eq_refl). now destruct (streamAllowed p') as [[|]|].
  - unfold map_set; fold (@map_set string participant String.eqb).
    simpl in Hsome, Hnone. destruct (String.eqb c k) eqn:E.
    + specialize (Hsome v eq_refl). unfold consents. simpl.
      rewrite Hsome. now destruct (streamAllowed v) as [[|]|].
    + simpl. destruct (consents (k, v)); simpl; now rewrite IH.
Qed.

(** A heartbeat writes its record whether or not the handler gets past the
    template literal that follows. *)
Lemma ping_outcome (c : string) (now : Z) (w : world) :
  truthy (d_roomId (data_of c w)) = true ->
  exists s',
    upsertParticipant now (d_roomId (data_of c w)) c (mkPatch None None None)
      (w_store w) = inr s'
    /\ after (step (mkInput c now EvPing) w) = mkWorld s' (w_data w)
    /\ forall name,
         to_string (d_roomId (data_of c w)) = Some name ->
         step (mkInput c now EvPing) w
         = Ok tt (mkWorld s' (w_data w))
             [Emit (Group ("admin:" ++ name)) "room:update"
                (RoomUpdate
                   (stream_enabled
                      (participants (d_roomId (data_of c w)) s')))].
Proof.
  intro Hr. change (step (mkInput c now EvPing) w) with (on_ping c now w).
  destruct (to_string (d_roomId (data_of c w))) as [name|] eqn:Hname.
  - destruct (on_ping_run c now w name Hr Hname) as (s' & Hup & Hrun).
    exists s'. split; [exact Hup|]. rewrite Hrun. split; [reflexivity|].
    now intros name' [= <-].
  - destruct (on_ping_crash c now w Hr Hname) as (s' & Hup & Hrun).
    exists s'. split; [exact Hup|]. rewrite Hrun. split; [reflexivity|].
    discriminate.
Qed.

(** X16.  A heartbeat changes nobody's visibility: when a connection with a
    recorded room pings, the consenting connections of every room are the
    same, in the same scan order, as before; the admin sets and
    [socket.data] are untouched; the pinging connection's record carries
    the clock reading as [lastSeen] and otherwise what it carried, or
    nothing if the ping created it.  The heartbeat is handled to the end
    when the recorded room id has a string form. *)
Theorem heartbeat_changes_no_visibility (c : string) (now : Z) (w : world) :
  truthy (d_roomId (data_of c w)) = true ->
  let w' := after (step (mkInput c now EvPing) w) in
  exists p,
    (forall name, to_string (d_roomId (data_of c w)) = Some name ->
                  exists o, step (mkInput c now EvPing) w = Ok tt w' o)
    /\ (forall r,
          map fst (filter consents (participants r (w_store w')))
          = map fst (filter consents (participants r (w_store w))))
    /\ (forall r, admins r (w_store w') = admins r (w_store w))
    /\ w_data w' = w_data w
    /\ record_of c (d_roomId (data_of c w)) (w_store w') = Some p
    /\ lastSeen p = now
    /\ match record_of c (d_roomId (data_of c w)) (w_store w) with
       | Some old =>
           userId p = userId old /\ displayName p = displayName old
           /\ streamAllowed p = streamAllowed old
       | None =>
           userId p = None /\ displayName p = None /\ streamAllowed p = None
       end.
Proof.
  intros Hr w'. destruct (ping_outcome c now w Hr) as (s' & Hup & Ew' & Hrun).
  fold w' in Ew'. rewrite Ew'.
  set (r0 := d_roomId (data_of c w)) in *.
  exists (spread (record_of c r0 (w_store w)) (mkPatch None None None) now).
  split; [intros name Hname; eexists; exact (Hrun name Hname)|].
  cbn [w_store w_data].
  split.
  { intro r. destruct (jsval_eq_dec r0 r) as [<- | Hne].
    - rewrite (upsert_participants_same _ _ _ _ _ _ Hup).
      apply consenting_keys_set.
      + intros p Hp. unfold record_of. now rewrite Hp.
      + intro Hp. unfold record_of. rewrite Hp. discriminate.
    - now rewrite (upsert_participants_other _ _ _ _ _ _ Hup r Hne). }
  split; [intro r; apply (upsert_admins _ _ _ _ _ _ Hup)|].
  split; [reflexivity|].
  split; [apply (upsert_record_same _ _ _ _ _ _ Hup)|].
  split; [reflexivity|].
  destruct (record_of c r0 (w_store w)); simpl; auto.
Qed.

Lemma heartbeat_changes_no_visibility_witness :
  let w :=
    mkWorld
      (mkStore
         [(JStr "r1",
           [("A", mkParticipant (Some (JStr "u1")) (Some (JStr "u1"))
                    (Some true) 2)])]
         [(JStr "r1", ["B"])])
      [("A", mkData (Some Participant) (JStr "r1") (JStr "u1"));
       ("B", mkData (Some Admin) (JStr "r1") JUndefined)] in
  let w' := after (step (mkInput "B" 9 EvPing) w) in
  exists p,
    (forall name, to_string (d_roomId (data_of "B" w)) = Some name ->
                  exists o, step (mkInput "B" 9 EvPing) w = Ok tt w' o)
    /\ (forall r,
          map fst (filter consents (participants r (w_store w')))
          = map fst (filter consents (participants r (w_store w))))
    /\ (forall r, admins r (w_store w') = admins r (w_store w))
    /\ w_data w' = w_data w
    /\ record_of "B" (d_roomId (data_of "B" w)) (w_store w') = Some p
    /\ lastSeen p = 9
    /\ match record_of "B" (d_roomId (data_of "B" w)) (w_store w) with
       | Some old =>
           userId p = userId old /\ displayName p = displayName old
           /\ streamAllowed p = streamAllowed old
       | None =>
           userId p = None /\ displayName p = None /\ streamAllowed p = None
       end.
Proof.
  intro w. apply (heartbeat_changes_no_visibility "B" 9 w). reflexivity.
Defined.




(** X18.  A heartbeat from a connection that has a room recorded but no
    record in it, such as one that only subscribed as admin, creates a
    record for it there: the room counts one participant more.  The record
    has neither [userId] nor consent flag, and the connection is not
    listed.  The heartbeat is handled to the end when the recorded room id
    has a string form. *)
Theorem heartbeat_without_record_creates_one (c : string) (now : Z)
    (w : world) :
  truthy (d_roomId (data_of c w)) = true ->
  record_of c (d_roomId (data_of c w)) (w_store w) = None ->
  let w' := after (step (mkInput c now EvPing) w) in
  (forall name, to_string (d_roomId (data_of c w)) = Some name ->
                exists o, step (mkInput c now EvPing) w = Ok tt w' o)
  /\ record_of c (d_roomId (data_of c w)) (w_store w')
     = Some (mkParticipant None None None now)
  /\ participant_count (d_roomId (data_of c w)) (w_store w')
     = S (participant_count (d_roomId (data_of c w)) (w_store w))
  /\ ~ listed c
       (stream_enabled (participants (d_roomId (data_of c w)) (w_store w'))).
Proof.
  intros Hr Hnone w'.
  destruct (ping_outcome c now w Hr) as (s' & Hup & Ew' & Hrun).
  fold w' in Ew'. rewrite Ew'.
  split; [intros name Hname; eexists; exact (Hrun name Hname)|].
  cbn [w_store].
  set (r0 := d_roomId (data_of c w)) in *.
  pose proof (upsert_participants_same _ _ _ _ _ _ Hup) as Hpart.
  rewrite Hnone in Hpart. unfold spread in Hpart. simpl in Hpart.
  split; [|split].
  - rewrite (upsert_record_same _ _ _ _ _ _ Hup). now rewrite Hnone.
  - unfold participant_count. rewrite Hpart.
    apply map_set_length_new. unfold map_has.
    unfold record_of in Hnone. now rewrite Hnone.
  - intro Hl. apply stream_enabled_socket in Hl.
    destruct Hl as (q & Hin & Hf). rewrite Hpart in Hin.
    apply (map_set_In _ String.eqb_eq) in Hin.
    destruct Hin as [[_ ->] | Hin]; [discriminate Hf|].
    exact (map_get_None_In _ String.eqb_eq _ _ Hnone q Hin).
Qed.

Lemma heartbeat_without_record_creates_one_witness :
  let w :=
    mkWorld (mkStore [(JStr "r1", [])] [(JStr "r1", ["B"])])
      [("B", mkData (Some Admin) (JStr "r1") JUndefined)] in
  let w' := after (step (mkInput "B" 9 EvPing) w) in
  (forall name, to_string (d_roomId (data_of "B" w)) = Some name ->
                exists o, step (mkInput "B" 9 EvPing) w = Ok tt w' o)
  /\ record_of "B" (d_roomId (data_of "B" w)) (w_store w')
     = Some (mkParticipant None None None 9)
  /\ participant_count (d_roomId (data_of "B" w)) (w_store w')
     = S (participant_count (d_roomId (data_of "B" w)) (w_store w))
  /\ ~ listed "B"
       (stream_enabled
          (participants (d_roomId (data_of "B" w)) (w_store w'))).
Proof.
  intro w. apply (heartbeat_without_record_creates_one "B" 9 w); reflexivity.
Defined.

(** ** Joining, room by room *)

(** X19.  A join makes nobody visible or invisible: after [join] with
    non-empty [roomId] and [userId] the consenting connections of every
    room are the same, in the same scan order, as before, and the
    connection's [socket.data] carry role [participant], the room and the
    user.  When the room id has a string form the join is handled to the
    end, and the joining connection's record carries the given [userId],
    as [displayName] the given one or else the [userId], the clock reading
    as [lastSeen], and the consent flag it had before (none if it is new).
    When it has none the join throws at [socket.join], with [socket.data]
    already written and the connection's record as it was. *)
Theorem join_changes_no_visibility (c : string) (now : Z) (arg : payload)
    (o : list (string * jsval)) (w : world) :
  destructure arg = inr o ->
  truthy (prop "roomId" o) = true ->
  truthy (prop "userId" o) = true ->
  let w' := after (step (mkInput c now (EvJoin arg)) w) in
  (forall r,
     map fst (filter consents (participants r (w_store w')))
     = map fst (filter consents (participants r (w_store w))))
  /\ data_of c w'
     = mkData (Some Participant) (prop "roomId" o) (prop "userId" o)
  /\ (forall name, to_string (prop "roomId" o) = Some name ->
      (exists out, step (mkInput c now (EvJoin arg)) w = Ok tt w' out)
      /\ record_of c (prop "roomId" o) (w_store w')
         = Some (mkParticipant (Some (prop "userId" o))
                   (Some (if truthy (prop "displayName" o)
                          then prop "displayName" o else prop "userId" o))
                   (match record_of c (prop "roomId" o) (w_store w) with
                    | Some old => streamAllowed old
                    | None => None
                    end)
                   now))
  /\ (to_string (prop "roomId" o) = None ->
      step (mkInput c now (EvJoin arg)) w = Throw TypeError w' []
      /\ record_of c (prop "roomId" o) (w_store w')
         = record_of c (prop "roomId" o) (w_store w)).
Proof.
  intros Hd Hr Hu w'. unfold w'.
  change (step (mkInput c now (EvJoin arg)) w) with (on_join c now arg w).
  destruct (to_string (prop "roomId" o)) as [name|] eqn:Hname.
  - destruct (on_join_run c now w arg o name Hd Hr Hu Hname)
      as (s' & Hup & Hrun).
    rewrite Hrun. cbn [after w_store].
    split; [|split; [apply data_of_put_same|split; [|discriminate]]].
    + intro r. destruct (jsval_eq_dec (prop "roomId" o) r) as [<- | Hne].
      * rewrite (upsert_participants_same _ _ _ _ _ _ Hup).
        apply consenting_keys_set.
        -- intros p Hp. unfold record_of. now rewrite Hp.
        -- intro Hp. unfold record_of. rewrite Hp. discriminate.
      * now rewrite (upsert_participants_other _ _ _ _ _ _ Hup r Hne).
    + intros name' _. split; [eexists; reflexivity|].
      rewrite (upsert_record_same _ _ _ _ _ _ Hup). reflexivity.
  - rewrite (on_join_crash c now w arg o Hd Hr Hu Hname).
    cbn [after w_store].
    split; [|split; [apply data_of_put_same|split; [discriminate|]]].
    + intro r. now rewrite participants_ensureRoom.
    + intros _. split; [reflexivity|].
      unfold record_of. now rewrite participants_ensureRoom.
Qed.

Lemma join_changes_no_visibility_witness :
  let o := [("roomId", JStr "r1"); ("userId", JStr "u1")] in
  let w :=
    mkWorld
      (mkStore
         [(JStr "r1",
           [("A", mkParticipant (Some (JStr "old")) (Some (JStr "Old Name"))
                    (Some true) 2)])]
         [(JStr "r1", [])])
      [("A", mkData (Some Participant) (JStr "r1") (JStr "old"))] in
  let w' := after (step (mkInput "A" 8 (EvJoin (PObj o))) w) in
  (forall r,
     map fst (filter consents (participants r (w_store w')))
     = map fst (filter consents (participants r (w_store w))))
  /\ data_of "A" w' = mkData (Some Participant) (JStr "r1") (JStr "u1")
  /\ (forall name, to_string (JStr "r1") = Some name ->
      (exists out, step (mkInput "A" 8 (EvJoin (PObj o))) w = Ok tt w' out)
      /\ record_of "A" (JStr "r1") (w_store w')
         = Some (mkParticipant (Some (JStr "u1")) (Some (JStr "u1"))
                   (Some true) 8))
  /\ (to_string (JStr "r1") = None ->
      step (mkInput "A" 8 (EvJoin (PObj o))) w = Throw TypeError w' []
      /\ record_of "A" (JStr "r1") (w_store w')
         = record_of "A" (JStr "r1") (w_store w)).
Proof.
  intros o w.
  apply (join_changes_no_visibility "A" 8 (PObj o) o w); reflexivity.
Defined.

Lemma outcome_other_rooms (i : input) (w : world)
    (arg' : payload) (flds : list (string * jsval)) (r : jsval) :
  i_event i = EvJoin arg' \/ i_event i = EvStreamConsent arg'
  \/ i_event i = EvAdminSubscribe arg' ->
  destructure arg' = inr flds ->
  r <> prop "roomId" flds ->
  participants r (w_store (after (step i w))) = participants r (w_store w)
  /\ admins r (w_store (after (step i w))) = admins r (w_store w).
Proof.
  intros Hev Hdes Hne. revert Hev.
  outcome_cases i w; cbn [i_event w_store] in *; intro Hev;
    destruct Hev as [Hev | [Hev | Hev]]; try discriminate Hev;
    injection Hev as ->; try (split; reflexivity);
    assert (fields = flds) by congruence; subst fields;
    try (split; [apply participants_ensureRoom | apply admins_ensureRoom]);
    try (split; [apply (upsert_participants_other _ _ _ _ _ _ Hst); congruence
                | apply (upsert_admins _ _ _ _ _ _ Hst)]);
    (split;
     [ rewrite (participants_rooms r s' _ (add_rooms _ _ _ _ Hst));
       apply participants_ensureRoom
     | rewrite (add_admins_other _ _ _ _ _ Hst) by congruence;
       apply admins_ensureRoom ]).
Qed.

(** X20.  Rooms are separate: [join], [stream:consent] and
    [admin:subscribe] change the participant map and the admin set of the
    room their payload names and of no other room, whether the handler
    returns or throws. *)
Theorem naming_a_room_touches_no_other (c : string) (now : Z) (arg : payload)
    (o : list (string * jsval)) (w : world) (r : jsval) (ev : event) :
  destructure arg = inr o ->
  r <> prop "roomId" o ->
  In ev [EvJoin arg; EvStreamConsent arg; EvAdminSubscribe arg] ->
  participants r (w_store (after (step (mkInput c now ev) w)))
  = participants r (w_store w)
  /\ admins r (w_store (after (step (mkInput c now ev) w)))
     = admins r (w_store w).
Proof.
  intros Hd Hne Hev.
  apply (outcome_other_rooms _ _ arg o r); [|exact Hd|exact Hne].
  cbn [i_event]. destruct Hev as [<- | [<- | [<- | []]]]; auto.
Qed.

Lemma naming_a_room_touches_no_other_witness :
  let o := [("roomId", JStr "r2"); ("userId", JStr "u1");
            ("allow", JBool true)] in
  let w :=
    mkWorld
      (mkStore
         [(JStr "r1",
           [("A", mkParticipant (Some (JStr "u1")) (Some (JStr "u1"))
                    None 2)])]
         [(JStr "r1", ["B"])])
      [("A", mkData (Some Participant) (JStr "r1") (JStr "u1"))] in
  let w' := after (step (mkInput "A" 8 (EvStreamConsent (PObj o))) w) in
  participants (JStr "r1") (w_store w') = participants (JStr "r1") (w_store w)
  /\ admins (JStr "r1") (w_store w') = admins (JStr "r1") (w_store w).
Proof.
  intros o w.
  apply (naming_a_room_touches_no_other "A" 8 (PObj o) o w (JStr "r1"));
    [reflexivity | discriminate | right; left; reflexivity].
Defined.

(** ** The guards *)

(** X21.  An event that lacks what its handler asks for is dropped
    without a trace.  [join] and [stream:consent] whose [roomId] or
    [userId] is missing or falsy (the empty string, 0, [false], [null]);
    [admin:subscribe] whose [roomId] is; a heartbeat or a disconnect of a
    connection that has no room recorded: each returns with the store and
    every [socket.data] as they were and sends nothing. *)
Theorem incomplete_events_are_dropped (c : string) (now : Z) (w : world) :
  (forall arg o,
     destructure arg = inr o ->
     truthy (prop "roomId" o) && truthy (prop "userId" o) = false ->
     step (mkInput c now (EvJoin arg)) w = Ok tt w []
     /\ step (mkInput c now (EvStreamConsent arg)) w = Ok tt w [])
  /\ (forall arg o,
        destructure arg = inr o ->
        truthy (prop "roomId" o) = false ->
        step (mkInput c now (EvAdminSubscribe arg)) w = Ok tt w [])
  /\ (truthy (d_roomId (data_of c w)) = false ->
      step (mkInput c now EvPing) w = Ok tt w []
      /\ step (mkInput c now EvDisconnect) w = Ok tt w []).
Proof.
  unfold step. cbn [i_event i_socket i_now]. split; [|split].
  - intros arg o Hd H.
    split; [now apply (on_join_ignored c now w arg o)
           | now apply (on_stream_consent_ignored c now w arg o)].
  - intros arg o Hd H. now apply (on_admin_subscribe_ignored c w arg o).
  - intro Hnone.
    split; [now apply on_ping_ignored | now apply on_disconnect_ignored].
Qed.

Lemma incomplete_events_are_dropped_witness :
  let arg := PObj [("roomId", JStr "r1"); ("userId", JStr EmptyString)] in
  let arg' := PObj [("roomId", JNum 0)] in
  (step (mkInput "A" 1 (EvJoin arg)) initial_world = Ok tt initial_world []
   /\ step (mkInput "A" 1 (EvStreamConsent arg)) initial_world
      = Ok tt initial_world [])
  /\ step (mkInput "A" 1 (EvAdminSubscribe arg')) initial_world
     = Ok tt initial_world []
  /\ (step (mkInput "A" 1 EvPing) initial_world = Ok tt initial_world []
      /\ step (mkInput "A" 1 EvDisconnect) initial_world
         = Ok tt initial_world []).
Proof.
  intros arg arg'.
  destruct (incomplete_events_are_dropped "A" 1 initial_world)
    as (Hjoin & Hsub & Hquiet).
  split; [|split].
  - apply (Hjoin arg [("roomId", JStr "r1"); ("userId", JStr EmptyString)]);
      reflexivity.
  - apply (Hsub arg' [("roomId", JNum 0)]); reflexivity.
  - apply Hquiet. reflexivity.
Defined.
